(** * eos_local: the Arista EOS transports of [lib/ansible/module_utils/eos_local.py]

    A shallow embedding of the two transport adapters of the module (the
    interactive shell [Cli] and the JSON-RPC adapter [Eapi]) together with
    the command classifier [is_json] / [is_text].

    Python values that the code hands around are values of [pyval]; a
    dictionary is a [gmap string pyval].  Code that can raise is run in a
    state-and-exception monad [M]: the state is the process state that the
    method touches (the remote device, the attributes of [self]), the
    exception is a Python exception or the exit performed by
    [module.fail_json]. *)

From Stdlib Require Import ZArith Ascii String.
From stdpp Require Import base option list strings gmap fin_maps pretty.

Set Warnings "-register-all".

Open Scope string_scope.
Open Scope list_scope.

(** ** Python strings *)

Module PyStr.

(** A Python string is a sequence of Unicode code points; it is held
    here as the bytes of its UTF-8 encoding, so that a character outside
    the ASCII range takes two to four bytes of the [string]: NO-BREAK
    SPACE (U+00A0) is the two bytes 194 160, EM SPACE (U+2003) the three
    bytes 226 128 131.  A byte above 127 outside such an encoding stands
    for no character. *)

(** The code points of the white space characters, those for which
    [str.isspace] holds and which [str.strip] removes: TAB, LF, VT, FF,
    CR, FS, GS, RS, US, SPACE, NEXT LINE (U+0085), NO-BREAK SPACE
    (U+00A0), OGHAM SPACE MARK (U+1680), EN QUAD to HAIR SPACE (U+2000 to
    U+200A), LINE SEPARATOR (U+2028), PARAGRAPH SEPARATOR (U+2029),
    NARROW NO-BREAK SPACE (U+202F), MEDIUM MATHEMATICAL SPACE (U+205F)
    and IDEOGRAPHIC SPACE (U+3000). *)
Definition whitespace : list N :=
  [9; 10; 11; 12; 13; 28; 29; 30; 31; 32; 133; 160; 5760;
   8192; 8193; 8194; 8195; 8196; 8197; 8198; 8199; 8200; 8201; 8202;
   8232; 8233; 8239; 8287; 12288]%N.

(** [c.isspace()] for the character of code point [c] *)
Definition isspace (c : N) : bool := bool_decide (c ∈ whitespace).

(** The UTF-8 encoding of a code point. *)
Definition utf8 (c : N) : list ascii :=
  if (c <? 128)%N then [ascii_of_N c]
  else if (c <? 2048)%N then
    [ascii_of_N (192 + c / 64); ascii_of_N (128 + c mod 64)]
  else if (c <? 65536)%N then
    [ascii_of_N (224 + c / 4096); ascii_of_N (128 + (c / 64) mod 64);
     ascii_of_N (128 + c mod 64)]
  else
    [ascii_of_N (240 + c / 262144); ascii_of_N (128 + (c / 4096) mod 64);
     ascii_of_N (128 + (c / 64) mod 64); ascii_of_N (128 + c mod 64)].

(** The string of the characters [cs]. *)
Definition text (cs : list N) : string :=
  string_of_list_ascii (concat (utf8 <$> cs)).

(** The encoded white space characters. *)
Definition space_chars : list (list ascii) := utf8 <$> whitespace.

(** [strip_prefix w l] is what follows [w] in [l], when [l] starts with
    [w]. *)
Fixpoint strip_prefix (w l : list ascii) : option (list ascii) :=
  match w, l with
  | [], _ => Some l
  | a :: w', b :: l' => if Ascii.eqb a b then strip_prefix w' l' else None
  | _ :: _, [] => None
  end.

(** [skip_one ws l] takes one of the characters [ws] off the front of
    [l]; [skip_all] does so as long as there is one, [fuel] bounding the
    number of characters taken off. *)
Fixpoint skip_one (ws : list (list ascii)) (l : list ascii)
    : option (list ascii) :=
  match ws with
  | [] => None
  | w :: ws' =>
      match strip_prefix w l with
      | Some r => Some r
      | None => skip_one ws' l
      end
  end.

Fixpoint skip_all (ws : list (list ascii)) (fuel : nat) (l : list ascii)
    : list ascii :=
  match fuel with
  | O => l
  | S n =>
      match skip_one ws l with
      | Some r => skip_all ws n r
      | None => l
      end
  end.

Definition lstrip_bytes (l : list ascii) : list ascii :=
  skip_all space_chars (length l) l.

Definition rstrip_bytes (l : list ascii) : list ascii :=
  reverse (skip_all (reverse <$> space_chars) (length l) (reverse l)).

(** [s.lstrip()] *)
Definition lstrip (s : string) : string :=
  string_of_list_ascii (lstrip_bytes (list_ascii_of_string s)).

(** [s.rstrip()] *)
Definition rstrip (s : string) : string :=
  string_of_list_ascii (rstrip_bytes (list_ascii_of_string s)).

(** [s.strip()] *)
Definition strip (s : string) : string := rstrip (lstrip s).

(** [s.endswith(suffix)]: some tail of [s] is [suffix]. *)
Fixpoint endswith (s suffix : string) : bool :=
  if String.eqb s suffix then true
  else match s with
       | EmptyString => false
       | String _ s' => endswith s' suffix
       end.

(** [s.startswith(prefix)] *)
Definition startswith (s pre : string) : bool := String.prefix pre s.

(** [sep.join(l)] *)
Fixpoint join (sep : string) (l : list string) : string :=
  match l with
  | [] => ""
  | [x] => x
  | x :: l' => x +:+ sep +:+ join sep l'
  end.

(** [l] is a run of white space characters. *)
Definition blank (l : list ascii) : Prop :=
  ∃ cs, Forall (λ c, isspace c = true) cs ∧ l = concat (utf8 <$> cs).

(** [t] is [s] without the white space around it: [s] is [t] between
    two runs of white space characters, and [t] neither starts nor ends
    with a white space character. *)
Definition trimmed (s t : string) : Prop :=
  ∃ l r, blank l ∧ blank r
         ∧ list_ascii_of_string s = l ++ list_ascii_of_string t ++ r
         ∧ (∀ c, isspace c = true →
                 ¬ utf8 c `prefix_of` list_ascii_of_string t)
         ∧ (∀ c, isspace c = true →
                 ¬ utf8 c `suffix_of` list_ascii_of_string t).

End PyStr.

(** ** Command classifier (lines 431-432)

<<
is_json = lambda x: str(x).endswith('| json')
is_text = lambda x: not str(x).endswith('| json')
>>
    Commands are strings, on which [str] is the identity. *)

Definition is_json (x : string) : bool := PyStr.endswith x "| json".
Definition is_text (x : string) : bool := negb (PyStr.endswith x "| json").

(** ** Python values and exceptions

    [PList] stands for lists and tuples, [PObj name] for the function,
    class or module that the module binds to [name]. *)

Inductive pyval : Type :=
  | PNone
  | PBool (b : bool)
  | PInt (n : Z)
  | PStr (s : string)
  | PList (l : list pyval)
  | PDict (d : gmap string pyval)
  | PObj (name : string).

(** Truth value of an object, as [if x:] tests it. *)
Definition truthy (v : pyval) : bool :=
  match v with
  | PNone => false
  | PBool b => b
  | PInt n => negb (n =? 0)%Z
  | PStr s => negb (String.eqb s "")
  | PList l => match l with [] => false | _ => true end
  | PDict d => negb (bool_decide (d = ∅))
  | PObj _ => true
  end.

(** What ends a call early.  [FailJson kwargs] is [module.fail_json] called
    with the keyword arguments [kwargs]: it reports them to the caller of
    the module and exits the process; the others are the Python
    exceptions that the code can raise and does not catch. *)
Inductive exn : Type :=
  | FailJson (kwargs : gmap string pyval)
  | NameError (name : string)
  | UnboundLocalError (name : string)
  | AttributeError (name : string)
  | KeyError (key : string)
  | IndexError
  | TypeError.

(** [v[key]] for a string key: only a dictionary can be subscripted by a
    string. *)
Definition getitem (v : pyval) (key : string) : exn + pyval :=
  match v with
  | PDict d => match d !! key with
               | Some x => inr x
               | None => inl (KeyError key)
               end
  | _ => inl TypeError
  end.

(** [v.strip()]: only a string has the method. *)
Definition strip_method (v : pyval) : exn + pyval :=
  match v with
  | PStr s => inr (PStr (PyStr.strip s))
  | _ => inl (AttributeError "strip")
  end.

(** ** The state-and-exception monad *)

Definition M (S A : Type) : Type := S → (exn + A) * S.

Definition ret {S A} (a : A) : M S A := λ st, (inr a, st).
Definition raise {S A} (e : exn) : M S A := λ st, (inl e, st).
Definition bind {S A B} (m : M S A) (k : A → M S B) : M S B :=
  λ st, match m st with
        | (inr a, st') => k a st'
        | (inl e, st') => (inl e, st')
        end.
Definition lift {S A} (r : exn + A) : M S A := λ st, (r, st).

(** [try: body except KeyError: handler] *)
Definition except_KeyError {S A} (body handler : M S A) : M S A :=
  λ st, match body st with
        | (inl (KeyError _), st') => handler st'
        | r => r
        end.

Declare Scope py_scope.
Delimit Scope py_scope with py.
Notation "'let*' x ':=' m 'in' k" := (bind m (λ x, k))
  (at level 10, x pattern, m at level 99, k at level 200) : py_scope.
Notation "m ;;; k" := (bind m (λ _, k))
  (at level 100, right associativity) : py_scope.
Open Scope py_scope.

(** ** Names bound in the module

    A bare name in a function body that the function does not assign is
    looked up in the globals of [eos_local] and then in the builtins.
    [module_globals] are the names the module binds at top level: its
    imports (lines 30-39), its assignments, functions and classes.  No
    function of the module binds another global ([get_connection] rebinds
    [_DEVICE_CONNECTION], which is kept in the state where it matters). *)

Definition module_globals : list string :=
  [ "re"; "time"; "CliBase"; "env_fallback"; "get_exception"; "to_list";
    "Command"; "iteritems"; "NetworkError"; "fetch_url";
    "_DEVICE_CONNECTION"; "eos_local_argument_spec";
    "check_args"; "load_params"; "get_connection"; "Cli"; "Eapi";
    "is_json"; "is_text"; "get_config"; "run_commands"; "load_config" ].

(** The builtins the module refers to; none of the other builtins of
    Python is a name that [resolve] is asked for below. *)
Definition builtins : list string :=
  [ "all"; "bool"; "dict"; "enumerate"; "int"; "list"; "str"; "super";
    "KeyError"; "ValueError"; "True"; "False"; "None" ].

Definition bound (name : string) : bool :=
  bool_decide (name ∈ module_globals) || bool_decide (name ∈ builtins).

(** Evaluating the bare name [name]. *)
Definition resolve {S} (name : string) : M S pyval :=
  if bound name then ret (PObj name) else raise (NameError name).

(** [v[i]] for an integer index: an element of a list or tuple. *)
Definition getindex (v : pyval) (i : nat) : exn + pyval :=
  match v with
  | PList l => match l !! i with
               | Some x => inr x
               | None => inl IndexError
               end
  | PDict _ => inl (KeyError (pretty i))
  | _ => inl TypeError
  end.

(** [v.pop(0)] *)
Definition pop0 (v : pyval) : exn + pyval :=
  match v with
  | PList (_ :: l) => inr (PList l)
  | PList [] => inl IndexError
  | PDict _ => inl (KeyError "0")
  | _ => inl (AttributeError "pop")
  end.

(** [responses.extend(v)]: the elements of a list, the characters of a
    string, the keys of a dictionary. *)
Definition extend (responses : list pyval) (v : pyval) : exn + list pyval :=
  match v with
  | PList l => inr (responses ++ l)
  | PStr s => inr (responses ++ ((λ c, PStr (String c "")) <$> list_ascii_of_string s))
  | PDict d => inr (responses ++ ((λ kv, PStr kv.1) <$> map_to_list d))
  | _ => inl TypeError
  end.

(** [v[key] = x] *)
Definition setitem (v : pyval) (key : string) (x : pyval) : exn + pyval :=
  match v with
  | PDict d => inr (PDict (<[key := x]> d))
  | _ => inl TypeError
  end.

(** [key in v] for a string [key] *)
Definition contains (v : pyval) (key : string) : exn + bool :=
  match v with
  | PDict d => inr (bool_decide (is_Some (d !! key)))
  | PList l => inr (existsb (λ x, match x with
                                  | PStr s => String.eqb s key
                                  | _ => false
                                  end) l)
  | PStr s => inr (bool_decide (is_Some (index 0 key s)))
  | _ => inl TypeError
  end.

(** ** Module parameters

    [module.params], with the entries of [eos_local_argument_spec]
    (lines 43-60) that the adapters read; [None] is an argument that was
    not given. *)
Record Params : Type := mkParams {
  host : option string;
  port : option Z;
  username : option string;
  password : option string;
  authorize : option bool;
  auth_pass : option string;
  use_ssl : option bool;
  timeout : option Z
}.

(** ['%s' % x] for an optional string or integer. *)
Definition fmt_str (x : option string) : string := default "None" x.
Definition fmt_int (x : option Z) : string := from_option pretty "None" x.

(** ** The JSON-RPC adapter (class [Eapi], lines 257-429) *)

Inductive Format : Type := Text | Json.

Definition Format_eqb (a b : Format) : bool :=
  match a, b with
  | Text, Text | Json, Json => true
  | _, _ => false
  end.

(** The dictionary that [_request_builder] makes (lines 287-289). *)
Record RpcParams : Type := mkRpcParams {
  version : Z;
  cmds : list string;
  format : option Format
}.

Record RpcBody : Type := mkRpcBody {
  jsonrpc : string;
  id : pyval;
  method : string;
  params : RpcParams
}.

(** The arguments of one call of [fetch_url] (lines 303-306). *)
Record Request : Type := mkRequest {
  req_url : pyval;
  req_data : RpcBody;
  req_content_type : string;
  req_method : string;
  req_timeout : option Z;
  req_username : option string;
  req_password : option string
}.

(** What [send_request] gets back: a status other than 200 with the
    [headers] dictionary of [fetch_url], a body that [from_json] rejects,
    or the dictionary that [from_json] makes of the body (a JSON-RPC
    endpoint answers with a JSON object; a body that is another JSON value
    is not modelled). *)
Inductive Reply : Type :=
  | HttpError (headers : gmap string pyval)
  | Unparsable (data : string)
  | Body (response : gmap string pyval).

Module Eapi.
Section Eapi.

(** The remote end: [fetch_url] followed by [response.read()] and
    [from_json], as one step of the device. *)
Variable Device : Type.
Variable fetch_url : Device → Request → Reply * Device.

(** The process state: the attributes of [self] ([_module] apart from
    the instance dictionary), the device, and the calls of [fetch_url]
    made so far with their replies, oldest first. *)
Record State : Type := mkState {
  _module : Params;
  attrs : gmap string pyval;
  device : Device;
  trace : list (Request * Reply)
}.

Local Abbreviation Py := (M State).

Definition getattr (name : string) : Py pyval :=
  λ st, match attrs st !! name with
        | Some v => (inr v, st)
        | None => (inl (AttributeError name), st)
        end.

Definition setattr (name : string) (v : pyval) : Py unit :=
  λ st, (inr tt, mkState (_module st) (<[name := v]> (attrs st)) (device st) (trace st)).

Definition fail_json {A} (kwargs : gmap string pyval) : Py A :=
  raise (FailJson kwargs).

Definition fetch (req : Request) : Py Reply :=
  λ st, let (reply, dev) := fetch_url (device st) req in
        (inr reply, mkState (_module st) (attrs st) dev (trace st ++ [(req, reply)])).

(** [Eapi.__init__] (lines 259-285) *)
Definition init_enable (module : Params) : pyval :=
  if truthy (from_option PStr PNone (auth_pass module))
  then PDict {[ "cmd" := PStr "enable";
                "input" := from_option PStr PNone (auth_pass module) ]}
  else PStr "enable".

Definition init_url (module : Params) : pyval :=
  let (proto, port) :=
    if truthy (from_option PBool PNone (use_ssl module))
    then ("https", if truthy (from_option PInt PNone (port module))
                   then port module else Some 443%Z)
    else ("http", if truthy (from_option PInt PNone (port module))
                  then port module else Some 80%Z) in
  PStr (proto +:+ "://" +:+ fmt_str (host module) +:+ ":" +:+ fmt_int port
        +:+ "/command-api").

Definition __init__ (module : Params) (dev : Device) : State :=
  {| _module := module;
     attrs := <["_enable" := init_enable module]>
              (<["_url" := init_url module]>
               (<["_device_config" := PDict ∅]>
                (<["_session_support" := PNone]>
                 (<["_enable" := PNone]> ∅))));
     device := dev;
     trace := [] |}.

(** [_request_builder] (lines 287-289) *)
Definition _request_builder (commands : list string) (output : option Format)
    (reqid : pyval) : RpcBody :=
  {| jsonrpc := "2.0"; id := reqid; method := "runCmds";
     params := {| version := 1; cmds := commands; format := output |} |}.

(** [send_request] (lines 291-320).  [to_list] copies its argument, so
    the caller's list is not changed by the [insert]. *)
Definition send_request (commands : list string) (output : option Format)
    : Py (gmap string pyval) :=
  let* enable := getattr "_enable" in
  let commands := if truthy enable then "enable" :: commands else commands in
  let body := _request_builder commands output PNone in
  let* url := getattr "_url" in
  let* module := (λ st, (inr (_module st), st)) in
  let* reply := fetch {| req_url := url; req_data := body;
                         req_content_type := "application/json-rpc";
                         req_method := "POST";
                         req_timeout := timeout module;
                         req_username := username module;
                         req_password := password module |} in
  match reply with
  | HttpError headers => fail_json headers
  | Unparsable data =>
      fail_json {[ "msg" := PStr "unable to load response from device";
                   "data" := PStr data ]}
  | Body response =>
      let* enable := getattr "_enable" in
      match response !! "result" with
      | Some result =>
          if truthy enable
          then let* result := lift (pop0 result) in
               ret (<["result" := result]> response)
          else ret response
      | None => ret response
      end
  end.

(** The local function [_send] of [run_commands] (lines 329-334). *)
Definition _send (commands : list string) (output : option Format) : Py pyval :=
  let* response := send_request commands output in
  match response !! "error" with
  | Some err =>
      let* msg := lift (getitem err "message") in
      let* code := lift (getitem err "code") in
      fail_json {[ "msg" := msg; "code" := code ]}
  | None =>
      lift (getitem (PDict response) "result")
  end.

(** The format that a queue tagged [output] does not accept [item] for
    (line 337). *)
Definition format_change (output : option Format) (item : string) : bool :=
  (from_option (Format_eqb Json) false output && is_text item)
  || (from_option (Format_eqb Text) false output && is_json item).

(** The first loop of [run_commands] (lines 336-346), from the point
    where [items] are still to be read. *)
Fixpoint batch_loop (items : list string) (output : option Format)
    (queue : list string) (responses : list pyval)
    : Py (option Format * list string * list pyval) :=
  match items with
  | [] => ret (output, queue, responses)
  | item :: items' =>
      let* (queue, responses) :=
        if format_change output item
        then let* r := _send queue output in
             let* responses := lift (extend responses r) in
             ret ([], responses)
        else ret (queue, responses) in
      let output := if is_json item then Some Json else Some Text in
      batch_loop items' output (queue ++ [item]) responses
  end.

(** The second loop (lines 351-353), from index [index] on. *)
Fixpoint unwrap_loop (index : nat) (commands : list string)
    (responses : list pyval) : exn + list pyval :=
  match commands with
  | [] => inr responses
  | item :: commands' =>
      if is_text item then
        match responses !! index with
        | None => inl IndexError
        | Some r =>
            match getitem r "output" with
            | inl e => inl e
            | inr out =>
                match strip_method out with
                | inl e => inl e
                | inr s => unwrap_loop (S index) commands' (<[index := s]> responses)
                end
            end
        end
      else unwrap_loop (S index) commands' responses
  end.

(** Lines 325-349: the responses collected from the device. *)
Definition collect (commands : list string) : Py (list pyval) :=
  let* (output, queue, responses) := batch_loop commands None [] [] in
  match queue with
  | [] => ret responses
  | _ => let* r := _send queue output in
         lift (extend responses r)
  end.

(** [Eapi.run_commands] (lines 322-355) *)
Definition run_commands (commands : list string) : Py (list pyval) :=
  let* responses := collect commands in
  lift (unwrap_loop 0 commands responses).

(** The builtin [str], which [get_config] applies to the output. *)
Variable py_str : pyval → string.

(** [Eapi.get_config] (lines 357-370).  [send_request(cmd)] sends the
    one-element list that [to_list] makes of the string [cmd]. *)
Definition get_config (flags : list string) : Py pyval :=
  let cmd := "show running-config " in
  let cmd := cmd +:+ PyStr.join " " flags in
  let cmd := PyStr.strip cmd in
  except_KeyError
    (let* cache := getattr "_device_configs" in
     lift (getitem cache cmd))
    (let* out := send_request [cmd] (Some Text) in
     let* result := lift (getitem (PDict out) "result") in
     let* first := lift (getindex result 0) in
     let* output := lift (getitem first "output") in
     let cfg := PStr (PyStr.strip (py_str output)) in
     let* cache := getattr "_device_configs" in
     let* cache := lift (setitem cache cmd cfg) in
     setattr "_device_configs" cache ;;;
     ret cfg).

(** [Eapi.supports_sessions] (lines 372-377) *)
Definition supports_sessions : Py pyval :=
  let* support := getattr "_session_support" in
  if truthy support then ret support
  else
    let* response := send_request ["show configuration sessions"] (Some Text) in
    let support := PBool (negb (bool_decide (is_Some (response !! "error")))) in
    setattr "_session_support" support ;;;
    ret support.

(** [Eapi.configure] (lines 379-390).  The reply is bound to [responses];
    [response] is not a local of the function, and a dictionary cannot
    be sliced. *)
Definition configure (commands : list string) : Py pyval :=
  let cmds := "configure terminal" :: commands in
  let* responses := send_request commands (Some Text) in
  let* response := resolve "response" in
  let* failed := lift (contains response "error") in
  (if failed : bool
   then let* err := lift (getitem response "error") in
        let* msg := lift (getitem err "message") in
        let* code := lift (getitem err "code") in
        fail_json {[ "msg" := msg; "code" := code ]}
   else ret tt) ;;;
  raise TypeError.

(** [Eapi.load_config] (lines 392-429); [now] is [int(time.time())].
    [supports_sessions] and [configure] are written as bare names: each is
    looked up as a global before the method of that name could be
    called, and [commands] is a local that has no value yet where line 400
    reads it. *)
Definition load_config (config : list string) (commit replace : bool) (now : Z)
    : Py pyval :=
  resolve "supports_sessions" ;;;
  let* supported := supports_sessions in
  if negb (truthy supported)
  then resolve "configure" ;;; raise (UnboundLocalError "commands")
  else
    let session := "ansible_" +:+ pretty now in
    let result : gmap string pyval := {[ "session" := PStr session ]} in
    let commands := ["configure session " +:+ session] in
    let commands := if replace then commands ++ ["rollback clean-config"]
                    else commands in
    let commands := commands ++ config in
    let* response := send_request commands (Some Text) in
    (match response !! "error" with
     | Some err =>
         let commands := ["configure session " +:+ session; "abort"] in
         send_request commands (Some Text) ;;;
         let* msg := lift (getitem err "message") in
         let* code := lift (getitem err "code") in
         fail_json {[ "msg" := msg; "code" := code ]}
     | None => ret tt
     end) ;;;
    let commands := ["configure session " +:+ session;
                     "show session-config diffs"] in
    let commands := commands ++ [if commit then "commit" else "abort"] in
    let* response := send_request commands (Some Text) in
    let* results := lift (getitem (PDict response) "result") in
    let* second := lift (getindex results 1) in
    let* diff := lift (getitem second "output") in
    ret (PDict (if truthy diff then <["diff" := diff]> result else result)).

End Eapi.

Arguments mkState {Device}.
Arguments _module {Device}.
Arguments attrs {Device}.
Arguments device {Device}.
Arguments trace {Device}.
Arguments __init__ {Device}.
Arguments getattr {Device}.
Arguments setattr {Device}.
Arguments fetch {Device}.
Arguments send_request {Device}.
Arguments _send {Device}.
Arguments batch_loop {Device}.
Arguments collect {Device}.
Arguments run_commands {Device}.
Arguments get_config {Device}.
Arguments supports_sessions {Device}.
Arguments configure {Device}.
Arguments load_config {Device}.

End Eapi.

(** ** The interactive shell adapter (class [Cli], lines 87-255) *)

Module Cli.
Section Cli.

(** [exec_command] of the base class [CliBase] sends one command and
    returns [(rc, out, err)]; [from_json] and [jsonify] are those of the
    module object; [getenv] is the environment of the process and
    [py_int] is [int] on a string. *)
Variable Shell : Type.
Variable exec_command : Shell → string → (Z * string * string) * Shell.
Variable from_json : string → option pyval.
Variable jsonify : pyval → string.
Variable getenv : string → option string.
Variable py_int : string → option Z.

(** The process state: [self._module], the shell, and whether the global
    [_DEVICE_CONNECTION] holds this adapter (it does once the module
    level [get_connection] has built it). *)
Record State : Type := mkState {
  _module : Params;
  shell : Shell;
  connected : bool
}.

Local Abbreviation Py := (M State).

Definition fail_json {A} (kwargs : gmap string pyval) : Py A :=
  raise (FailJson kwargs).

Definition exec (cmd : string) : Py (Z * string * string) :=
  λ st, let (r, sh) := exec_command (shell st) cmd in
        (inr r, mkState (_module st) sh (connected st)).

(** [get_connection(self)] (lines 75-84) with the adapter in the place of
    the module: the adapter has no [params] for [load_params] to read. *)
Definition get_connection : Py unit :=
  λ st, if connected st then (inr tt, st)
        else (inl (AttributeError "params"), st).

(** [Cli.check_authorization] (lines 131-134) *)
Definition check_authorization : Py bool :=
  let* (rc, out, err) := exec "show clock" in
  let* (rc, out, err) := exec "prompt()" in
  ret (PyStr.endswith out "#").

(** [Cli.supports_sessions] (lines 136-139) *)
Definition supports_sessions : Py bool :=
  get_connection ;;;
  let* (rc, out, err) := exec "show configuration sessions" in
  ret (rc =? 0)%Z.

(** [Cli.get_config] (lines 141-157) *)
Definition get_config (flags : list string) : Py pyval :=
  let cmd := "show running-config " in
  let cmd := cmd +:+ PyStr.join " " flags in
  let cmd := PyStr.strip cmd in
  except_KeyError
    (let* cache := resolve "_DEVICE_CONFIGS" in
     lift (getitem cache cmd))
    (get_connection ;;;
     let* (rc, out, err) := exec cmd in
     (if negb (rc =? 0)%Z then fail_json {[ "msg" := PStr err ]} else ret tt) ;;;
     let cfg := PStr (PyStr.strip out) in
     let* cache := resolve "_DEVICE_CONFIGS" in
     lift (setitem cache cmd cfg) ;;;
     ret cfg).

(** What lines 170-173 make of one output. *)
Definition decode (out : string) : pyval :=
  match from_json out with
  | Some v => v
  | None => PStr (PyStr.strip out)
  end.

(** The loop of [Cli.run_commands] (lines 164-175). *)
Fixpoint run_loop (commands : list string) (check_rc : bool)
    (responses : list pyval) : Py (list pyval) :=
  match commands with
  | [] => ret responses
  | cmd :: commands' =>
      let* (rc, out, err) := exec cmd in
      (if check_rc && negb (rc =? 0)%Z
       then fail_json {[ "msg" := PStr err ]}
       else ret tt) ;;;
      let out := decode out in
      run_loop commands' check_rc (responses ++ [out])
  end.

(** [Cli.run_commands] (lines 159-176) *)
Definition run_commands (commands : list string) (check_rc : bool)
    : Py (list pyval) :=
  run_loop commands check_rc [].

(** The loop of [Cli.send_config] (lines 180-192); [last] is the value of
    [rc] left by the previous round, if there was one. *)
Fixpoint send_loop (commands : list string) (multiline : bool)
    (last : option Z) : Py (option Z + (Z * string * string)) :=
  match commands with
  | [] => ret (inl last)
  | command :: commands' =>
      let (multiline, command) :=
        if PyStr.startswith command "banner" || multiline
        then (true, jsonify (PDict {[ "command" := PStr command;
                                      "sendonly" := PBool true ]}))
        else if String.eqb command "EOF" && multiline
        then (false, command)
        else (multiline, command) in
      let* (rc, out, err) := exec command in
      if negb (rc =? 0)%Z then ret (inr (rc, out, err))
      else send_loop commands' multiline (Some rc)
  end.

(** [Cli.send_config] (lines 178-193) *)
Definition send_config (commands : list string) : Py (Z * string * string) :=
  let* r := send_loop commands false None in
  match r with
  | inr failed => ret failed
  | inl (Some rc) => ret (rc, "ok", "")
  | inl None => raise (UnboundLocalError "rc")
  end.

(** [Cli.configure] (lines 196-213) *)
Definition configure (commands : list string) : Py pyval :=
  resolve "check_authorization" ;;;
  let* authorized := check_authorization in
  (if negb authorized
   then fail_json
          {[ "msg" := PStr "configuration operations require privilege escalation" ]}
   else ret tt) ;;;
  get_connection ;;;
  let* (rc, out, err) := exec "configure" in
  (if negb (rc =? 0)%Z
   then fail_json {[ "msg" := PStr "unable to enter configuration mode";
                     "output" := PStr err ]}
   else ret tt) ;;;
  resolve "send_config" ;;;
  let* (rc, out, err) := send_config commands in
  (if negb (rc =? 0)%Z then fail_json {[ "msg" := PStr err ]} else ret tt) ;;;
  exec "end" ;;;
  ret (PDict ∅).

(** [bool(use_session)] after lines 221-225: the variable
    [ANSIBLE_EOS_USE_SESSIONS], [True] when it is not set, turned into an
    integer when [int] accepts it. *)
Definition use_session : bool :=
  match getenv "ANSIBLE_EOS_USE_SESSIONS" with
  | None => true
  | Some s => match py_int s with
              | Some n => negb (n =? 0)%Z
              | None => negb (String.eqb s "")
              end
  end.

(** [Cli.load_config] (lines 215-255); [now] is [int(time.time())].
    [check_authorization], [os], [supports_sessions], [configure] and
    [send_config] are bare names, and [conn] is the adapter itself, which
    has no [fail_json]. *)
Definition load_config (commands : list string) (commit replace : bool)
    (now : Z) : Py pyval :=
  resolve "check_authorization" ;;;
  let* authorized := check_authorization in
  (if negb authorized
   then fail_json
          {[ "msg" := PStr "configuration operations require privilege escalation" ]}
   else ret tt) ;;;
  resolve "os" ;;;
  let use_session := use_session in
  resolve "supports_sessions" ;;;
  let* supported := supports_sessions in
  if negb (use_session && supported)
  then resolve "configure" ;;; configure commands
  else
    get_connection ;;;
    let session := "ansible_" +:+ pretty now in
    let result : gmap string pyval := {[ "session" := PStr session ]} in
    let* (rc, out, err) := exec ("configure session " +:+ session) in
    (if negb (rc =? 0)%Z
     then fail_json {[ "msg" := PStr "unable to enter configuration mode";
                       "output" := PStr err ]}
     else ret tt) ;;;
    (if replace then exec "rollback clean-config" ;;; ret tt else ret tt) ;;;
    resolve "send_config" ;;;
    let* (rc, out, err) := send_config commands in
    (if negb (rc =? 0)%Z
     then exec "abort" ;;; raise (AttributeError "fail_json")
     else ret tt) ;;;
    let* (rc, out, err) := exec "show session-config diffs" in
    let result := if (rc =? 0)%Z
                  then <["diff" := PStr (PyStr.strip out)]> result
                  else result in
    (if commit then exec "commit" else exec "abort") ;;;
    ret (PDict result).

End Cli.

Arguments mkState {Shell}.
Arguments _module {Shell}.
Arguments shell {Shell}.
Arguments connected {Shell}.
Arguments exec {Shell}.
Arguments run_loop {Shell}.
Arguments run_commands {Shell}.
Arguments get_config {Shell}.
Arguments check_authorization {Shell}.
Arguments supports_sessions {Shell}.
Arguments send_config {Shell}.
Arguments configure {Shell}.
Arguments load_config {Shell}.

End Cli.

(** ** Derived notions used in the statements *)

(** The number of adjacent pairs of commands whose formats differ. *)
Fixpoint format_transitions (commands : list string) : nat :=
  match commands with
  | a :: (b :: _) as rest =>
      (if Bool.eqb (is_json a) (is_json b) then 0 else 1) + format_transitions rest
  | _ => 0
  end.

(** The number of requests that the specification gives for a sequence. *)
Definition expected_requests (commands : list string) : nat :=
  match commands with
  | [] => 0
  | _ => 1 + format_transitions commands
  end.

(** The commands of a request, and those behind the injected one. *)
Definition sent (entry : Request * Reply) : list string :=
  cmds (params (req_data entry.1)).

(** A reply carries an error indicator when its dictionary has the key
    [error]. *)
Definition error_of (reply : Reply) : option pyval :=
  match reply with
  | Body response => response !! "error"
  | _ => None
  end.

Section EapiDerived.

Context {Device : Type} (fetch_url : Device → Request → Reply * Device).

(** The request that [send_request] builds in state [st] when [_enable]
    is [enable] and [_url] is [url]. *)
Definition request_for (st : Eapi.State Device) (enable url : pyval)
    (commands : list string) (output : option Format) : Request :=
  {| req_url := url;
     req_data := Eapi._request_builder
                   (if truthy enable then "enable" :: commands else commands)
                   output PNone;
     req_content_type := "application/json-rpc";
     req_method := "POST";
     req_timeout := timeout (Eapi._module st);
     req_username := username (Eapi._module st);
     req_password := password (Eapi._module st) |}.

(** The state after [fetch_url] has answered [req]. *)
Definition fetched (st : Eapi.State Device) (req : Request) : Eapi.State Device :=
  Eapi.mkState (Eapi._module st) (Eapi.attrs st)
    (fetch_url (Eapi.device st) req).2
    (Eapi.trace st ++ [(req, (fetch_url (Eapi.device st) req).1)]).

(** What [send_request] returns for a reply. *)
Definition received (enable : pyval) (reply : Reply) : exn + gmap string pyval :=
  match reply with
  | HttpError headers => inl (FailJson headers)
  | Unparsable data =>
      inl (FailJson {[ "msg" := PStr "unable to load response from device";
                       "data" := PStr data ]})
  | Body response =>
      match response !! "result" with
      | Some result =>
          if truthy enable
          then match pop0 result with
               | inr result => inr (<["result" := result]> response)
               | inl e => inl e
               end
          else inr response
      | None => inr response
      end
  end.

(** What [_send] returns for the dictionary that [send_request] returned. *)
Definition judged (response : gmap string pyval) : exn + pyval :=
  match response !! "error" with
  | Some err =>
      match getitem err "message" with
      | inl e => inl e
      | inr msg =>
          match getitem err "code" with
          | inl e => inl e
          | inr code => inl (FailJson {[ "msg" := msg; "code" := code ]})
          end
      end
  | None => getitem (PDict response) "result"
  end.

(** A device that answers every request with one result per command of
    the request, in the order of the commands: [ans f c] for the command
    [c] of a request of format [f]. *)
Definition answers (ans : option Format → string → pyval) : Prop :=
  ∀ dev req, ∃ response,
    (fetch_url dev req).1 = Body response
    ∧ response !! "error" = None
    ∧ response !! "result"
      = Some (PList (ans (format (params (req_data req)))
                       <$> cmds (params (req_data req)))).

(** What [_send] returns for a reply. *)
Definition answered (enable : pyval) (reply : Reply) : exn + pyval :=
  match received enable reply with
  | inl e => inl e
  | inr response => judged response
  end.

(** The results that [run_commands] takes from a reply. *)
Definition payload (enable : pyval) (entry : Request * Reply) : list pyval :=
  match answered enable entry.2 with
  | inr v => match extend [] v with
             | inr l => l
             | inl _ => []
             end
  | inl _ => []
  end.

End EapiDerived.

(** The format that the batcher gives a command. *)
Definition format_of (item : string) : Format :=
  if is_json item then Json else Text.

(** The answers to text requests have the shape [{output: out c}]. *)
Definition text_output (ans : option Format → string → pyval)
    (out : string → string) : Prop :=
  ∀ c, ∃ d, ans (Some Text) c = PDict d ∧ d !! "output" = Some (PStr (out c)).

(** The answer of such a device to the command [c], in the request that
    the batcher puts it in. *)
Definition raw (ans : option Format → string → pyval) (c : string) : pyval :=
  ans (Some (format_of c)) c.

(** The result of [run_commands] for the command [c] on such a device. *)
Definition expected (ans : option Format → string → pyval)
    (out : string → string) (c : string) : pyval :=
  if is_json c then ans (Some Json) c else PStr (PyStr.strip (out c)).

(** An enable credential is configured: [auth_pass] is given and is not
    the empty string. *)
Definition enable_credential (module : Params) : bool :=
  truthy (from_option PStr PNone (auth_pass module)).

(** The number of times the first loop of [run_commands] flushes its
    queue while it reads [items], the queue being tagged [output]. *)
Fixpoint flushes (output : option Format) (items : list string) : nat :=
  match items with
  | [] => 0
  | item :: items' =>
      (if Eapi.format_change output item then 1 else 0)
      + flushes (if is_json item then Some Json else Some Text) items'
  end.

(** The commands of a request behind the injected one. *)
Definition batch (enable : pyval) (entry : Request * Reply) : list string :=
  if truthy enable then tail (sent entry) else sent entry.

(** The request is tagged with the format of each of its commands. *)
Definition tagged (enable : pyval) (entry : Request * Reply) : Prop :=
  ∀ c, c ∈ batch enable entry →
       format (params (req_data entry.1)) = Some (format_of c).

(** No reply of [new] carries an error indicator. *)
Definition clean (new : list (Request * Reply)) : Prop :=
  Forall (λ entry, error_of entry.2 = None) new.

(** The failure reply of section 6 of the specification: a dictionary
    whose [error] has a message [m] and a code [c], and whose [result], if
    it has one, holds the placeholder of the injected command. *)
Definition device_error (reply : Reply) (m c : pyval) : Prop :=
  ∃ response err,
    reply = Body response
    ∧ response !! "error" = Some (PDict err)
    ∧ err !! "message" = Some m
    ∧ err !! "code" = Some c
    ∧ (response !! "result" = None
       ∨ ∃ x l, response !! "result" = Some (PList (x :: l))).

(** How a call that made the requests [new] may end: on a result only
    when no reply carried an error, and when the last reply is a device
    error, with the message and the code of that reply. *)
Definition outcome {A} (r : exn + A) (new : list (Request * Reply)) : Prop :=
  match r with
  | inr _ => clean new
  | inl e =>
      clean new
      ∨ ∃ pre x, new = pre ++ [x] ∧ clean pre
          ∧ ∀ m c, device_error x.2 m c
                   → e = FailJson {[ "msg" := m; "code" := c ]}
  end.

Section CliDerived.

Context {Shell : Type}
  (exec_command : Shell → string → (Z * string * string) * Shell).

(** What the shell answers to a sequence of commands sent one after the
    other, and the shell they leave. *)
Fixpoint transcript (sh : Shell) (commands : list string)
    : list (Z * string * string) :=
  match commands with
  | [] => []
  | cmd :: commands' =>
      (exec_command sh cmd).1 :: transcript (exec_command sh cmd).2 commands'
  end.

Fixpoint final_shell (sh : Shell) (commands : list string) : Shell :=
  match commands with
  | [] => sh
  | cmd :: commands' => final_shell (exec_command sh cmd).2 commands'
  end.

End CliDerived.

(** ** Concrete devices

    Small devices on which the statements below are run. *)

(** [module.params] of a play against the switch [sw1] with no
    [auth_pass], and of one with an enable password. *)
Definition switch : Params :=
  {| host := Some "sw1"; port := None; username := Some "admin";
     password := Some "secret"; authorize := None; auth_pass := None;
     use_ssl := None; timeout := Some 10%Z |}.

Definition switch_with_secret : Params :=
  {| host := Some "sw1"; port := None; username := Some "admin";
     password := Some "secret"; authorize := Some true;
     auth_pass := Some "s3cr3t"; use_ssl := Some true; timeout := Some 10%Z |}.

(** A stateless device that answers each command with its own text,
    padded with white space, or with a dictionary for a structured
    request. *)
Definition echo_out (c : string) : string := "  " +:+ c +:+ " ".

Definition echo_ans (f : option Format) (c : string) : pyval :=
  match f with
  | Some Json => PDict {[ "command" := PStr c ]}
  | _ => PDict {[ "output" := PStr (echo_out c) ]}
  end.

Definition echo (dev : unit) (req : Request) : Reply * unit :=
  let p := params (req_data req) in
  (Body {[ "result" := PList (echo_ans (format p) <$> cmds p) ]}, dev).

(** A device like [echo] whose text is padded with white space outside
    the ASCII range: NO-BREAK SPACE, EM SPACE and SPACE in front, NEXT
    LINE, LF and IDEOGRAPHIC SPACE behind. *)
Definition wide_out (c : string) : string :=
  PyStr.text [160; 8195; 32]%N +:+ c +:+ PyStr.text [133; 10; 12288]%N.

Definition wide_ans (f : option Format) (c : string) : pyval :=
  match f with
  | Some Json => PDict {[ "command" := PStr c ]}
  | _ => PDict {[ "output" := PStr (wide_out c) ]}
  end.

Definition wide (dev : unit) (req : Request) : Reply * unit :=
  let p := params (req_data req) in
  (Body {[ "result" := PList (wide_ans (format p) <$> cmds p) ]}, dev).

(** A device that rejects every structured request. *)
Definition rejection : gmap string pyval :=
  {[ "error" := PDict {[ "code" := PInt 1002;
                         "message" := PStr "invalid command" ]} ]}.

Definition text_only (dev : unit) (req : Request) : Reply * unit :=
  match format (params (req_data req)) with
  | Some Json => (Body rejection, dev)
  | _ => echo dev req
  end.

(** A device that knows no configuration sessions. *)
Definition legacy (dev : unit) (req : Request) : Reply * unit :=
  if bool_decide ("show configuration sessions" ∈ cmds (params (req_data req)))
  then (Body rejection, dev)
  else echo dev req.

(** The example of section 8 of the specification. *)
Definition example_commands : list string :=
  ["show version"; "show interfaces | json"; "show version"].

(** A shell that answers [show version] with an empty JSON object and
    every other command with padded text, and a [from_json] that accepts
    that object only. *)
Definition console (sh : unit) (cmd : string) : (Z * string * string) * unit :=
  if String.eqb cmd "show version" then ((0%Z, "{}", ""), sh)
  else ((0%Z, "  Vlan1 is up ", ""), sh).

(** The same shell, its text padded with white space outside the ASCII
    range. *)
Definition wide_console (sh : unit) (cmd : string)
    : (Z * string * string) * unit :=
  if String.eqb cmd "show version" then ((0%Z, "{}", ""), sh)
  else ((0%Z, wide_out "Vlan1 is up", ""), sh).

(** A shell without configuration sessions: it rejects the commands that
    mention them. *)
Definition old_console (sh : unit) (cmd : string) : (Z * string * string) * unit :=
  if PyStr.startswith cmd "show configuration sessions"
     || PyStr.startswith cmd "configure session"
  then ((1%Z, "", "% Invalid input"), sh)
  else ((0%Z, "sw1#", ""), sh).

Definition json_object (s : string) : option pyval :=
  if String.eqb s "{}" then Some (PDict ∅) else None.

(** ** Module-level functions (lines 43-84)

    Here [module.params] is the dictionary itself. *)

(** [eos_local_argument_spec] (lines 43-60) *)
Definition eos_local_argument_spec : gmap string pyval :=
  {[ "host" := PDict ∅;
     "port" := PDict {[ "type" := PStr "int" ]};
     "username" :=
       PDict {[ "fallback" := PList [PObj "env_fallback";
                                     PList [PStr "ANSIBLE_NET_USERNAME"]] ]};
     "password" :=
       PDict {[ "fallback" := PList [PObj "env_fallback";
                                     PList [PStr "ANSIBLE_NET_PASSWORD"]];
                "no_log" := PBool true ]};
     "authorize" :=
       PDict {[ "fallback" := PList [PObj "env_fallback";
                                     PList [PStr "ANSIBLE_NET_AUTHORIZE"]];
                "type" := PStr "bool" ]};
     "auth_pass" :=
       PDict {[ "no_log" := PBool true;
                "fallback" := PList [PObj "env_fallback";
                                     PList [PStr "ANSIBLE_NET_AUTH_PASS"]] ]};
     "use_ssl" := PDict {[ "type" := PStr "bool" ]};
     "validate_certs" := PDict {[ "type" := PStr "bool" ]};
     "timeout" := PDict {[ "type" := PStr "int" ]};
     "provider" := PDict {[ "type" := PStr "dict" ]};
     "transport" := PDict {[ "choices" := PList [PStr "cli"; PStr "eapi"] ]} ]}.

(** [d.get(key)] and [v is None] *)
Definition dict_get (d : gmap string pyval) (key : string) : pyval :=
  default PNone (d !! key).

Definition is_None (v : pyval) : bool :=
  match v with PNone => true | _ => false end.

(** [provider.get(key)]: only a dictionary has the method. *)
Definition method_get (provider : pyval) (key : string) : exn + pyval :=
  match provider with
  | PDict d => inr (dict_get d key)
  | _ => inl (AttributeError "get")
  end.

(** [x or {}] *)
Definition or_dict (x : pyval) : pyval := if truthy x then x else PDict ∅.

(** The loop of [check_args] (lines 64-66) over the keys still to check. *)
Fixpoint check_keys (params : gmap string pyval) (provider : pyval)
    (keys : list string) : exn + unit :=
  match keys with
  | [] => inr tt
  | key :: keys' =>
      match getitem (PDict params) key with
      | inl e => inl e
      | inr v =>
          if truthy v then check_keys params provider keys'
          else match method_get provider key with
               | inl e => inl e
               | inr pv =>
                   if truthy pv then check_keys params provider keys'
                   else inl (FailJson
                               {[ "msg" := PStr ("missing required argument "
                                                 +:+ key) ]})
               end
      end
  end.

(** The module or the provider [d] has a value for [key] that counts as
    true. *)
Definition given (params d : gmap string pyval) (key : string) : bool :=
  truthy (dict_get params key) || truthy (dict_get d key).

(** [check_args] (lines 62-66); [warnings] is not used. *)
Definition check_args (params : gmap string pyval) : exn + unit :=
  match getitem (PDict params) "provider" with
  | inl e => inl e
  | inr p => check_keys params (or_dict p) ["host"; "username"; "password"]
  end.

(** One round of the loop of [load_params] (lines 71-73). *)
Definition load_step (params : gmap string pyval) (item : string * pyval)
    : gmap string pyval :=
  if bool_decide (is_Some (eos_local_argument_spec !! item.1))
  then if is_None (dict_get params item.1) && negb (is_None item.2)
       then <[item.1 := item.2]> params
       else params
  else params.

(** Whether that round copies the value [v] that the provider has for the
    key [k] into [params]. *)
Definition copied (params : gmap string pyval) (k : string) (v : pyval)
    : bool :=
  bool_decide (is_Some (eos_local_argument_spec !! k))
  && is_None (dict_get params k) && negb (is_None v).

(** [iteritems(provider)]: the items of a dictionary, in the order of
    the dictionary. *)
Definition iteritems (provider : pyval) : exn + list (string * pyval) :=
  match provider with
  | PDict d => inr (map_to_list d)
  | _ => inl (AttributeError "iteritems")
  end.

(** [load_params] (lines 68-73): the dictionary [module.params] after the
    call. *)
Definition load_params (params : gmap string pyval)
    : exn + gmap string pyval :=
  match iteritems (or_dict (dict_get params "provider")) with
  | inl e => inl e
  | inr items => inr (foldl load_step params items)
  end.

Section Connection.

(** The two adapters as [get_connection] sees them: a constructor takes
    the module, may change its parameters and the world outside, and
    gives a connection or fails.  An adapter is an object without a
    length, hence true as a condition. *)
Context {Conn World : Type}.
Variable new_Eapi :
  gmap string pyval → World → (exn + Conn) * (gmap string pyval * World).
Variable new_Cli :
  gmap string pyval → World → (exn + Conn) * (gmap string pyval * World).

(** The process: [module.params], the global [_DEVICE_CONNECTION] and the
    world outside. *)
Record Process : Type := mkProcess {
  module_params : gmap string pyval;
  _DEVICE_CONNECTION : option Conn;
  world : World
}.

(** [x == 'eapi'] *)
Definition is_eapi (x : pyval) : bool :=
  match x with
  | PStr s => String.eqb s "eapi"
  | _ => false
  end.

(** [get_connection] (lines 75-84) *)
Definition get_connection : M Process Conn :=
  λ p, match _DEVICE_CONNECTION p with
       | Some conn => (inr conn, p)
       | None =>
           match load_params (module_params p) with
           | inl e => (inl e, p)
           | inr params =>
               match getitem (PDict params) "transport" with
               | inl e => (inl e, mkProcess params None (world p))
               | inr transport =>
                   let new := if is_eapi transport then new_Eapi else new_Cli in
                   match new params (world p) with
                   | (inl e, (params', w)) => (inl e, mkProcess params' None w)
                   | (inr conn, (params', w)) =>
                       (inr conn, mkProcess params' (Some conn) w)
                   end
               end
           end
       end.

End Connection.

Arguments Process : clear implicits.
Arguments mkProcess {Conn World}.

(** Every reply of [new] is one that [_send] returns results for. *)
Definition accepted (enable : pyval) (new : list (Request * Reply)) : Prop :=
  Forall (λ entry, ∃ v, answered enable entry.2 = inr v) new.

(** How a call that made the requests [new] ends: when [_send] raises
    for a reply, that reply is the last one and the call raises the same. *)
Definition verdict {A} (enable : pyval) (r : exn + A)
    (new : list (Request * Reply)) : Prop :=
  match r with
  | inr _ => accepted enable new
  | inl e =>
      accepted enable new
      ∨ ∃ pre x, new = pre ++ [x] ∧ accepted enable pre
                 ∧ answered enable x.2 = inl e
  end.

(** What the second loop of [run_commands] raises for the entry of a text
    command, if it raises. *)
Definition unwrap_error (entry : option pyval) : option exn :=
  match entry with
  | None => Some IndexError
  | Some r =>
      match getitem r "output" with
      | inl e => Some e
      | inr out =>
          match strip_method out with
          | inl e => Some e
          | inr _ => None
          end
      end
  end.

Section CliWire.

Context (jsonify : pyval → string).

(** What [send_config] sends for [command] in multi-line mode (line 186). *)
Definition sendonly (command : string) : string :=
  jsonify (PDict {[ "command" := PStr command; "sendonly" := PBool true ]}).

(** What the loop of [send_config] sends for [commands], one after the
    other, as long as no command fails. *)
Fixpoint wire (multiline : bool) (commands : list string) : list string :=
  match commands with
  | [] => []
  | command :: commands' =>
      let multiline := PyStr.startswith command "banner" || multiline in
      (if multiline then sendonly command else command)
        :: wire multiline commands'
  end.

End CliWire.

(** The answer [(rc, out, err)] has a return code other than zero. *)
Definition failed (r : Z * string * string) : bool := negb (r.1.1 =? 0)%Z.

(** A device whose replies hold the placeholder of the injected command
    and nothing else, one that is not reachable, and one that does not
    speak JSON. *)
Definition mute (dev : unit) (req : Request) : Reply * unit :=
  (Body {[ "result" := PList [PDict ∅] ]}, dev).

Definition unreachable : gmap string pyval :=
  {[ "status" := PInt (-1); "msg" := PStr "Request failed: timed out" ]}.

Definition down (dev : unit) (req : Request) : Reply * unit :=
  (HttpError unreachable, dev).

Definition garbled (dev : unit) (req : Request) : Reply * unit :=
  (Unparsable "<html>Bad Gateway</html>", dev).

(** A device that returns neither results nor an error, and one that
    returns an empty list of results. *)
Definition hollow (dev : unit) (req : Request) : Reply * unit :=
  (Body {[ "jsonrpc" := PStr "2.0" ]}, dev).

Definition empty_handed (dev : unit) (req : Request) : Reply * unit :=
  (Body {[ "result" := PList [] ]}, dev).

(** A shell on which [show vlan] fails and every other command succeeds. *)
Definition fussy (sh : list string) (cmd : string)
    : (Z * string * string) * list string :=
  if String.eqb cmd "show vlan"
  then ((1%Z, "", "% Invalid input"), sh ++ [cmd])
  else ((0%Z, "ok: " +:+ cmd, ""), sh ++ [cmd]).

(** A [jsonify] that only marks what it wraps. *)
Definition mark (v : pyval) : string :=
  match v with
  | PDict d => match d !! "command" with
               | Some (PStr s) => "{sendonly: " +:+ s +:+ "}"
               | _ => "{}"
               end
  | _ => "null"
  end.

(** Constructors that only count how often an adapter is built. *)
Definition count_Eapi (params : gmap string pyval) (built : nat)
    : (exn + string) * (gmap string pyval * nat) :=
  (inr "Eapi", (params, S built)).

Definition count_Cli (params : gmap string pyval) (built : nat)
    : (exn + string) * (gmap string pyval * nat) :=
  (inr "Cli", (params, S built)).

(** The parameters of a play that gives its credentials in [provider]. *)
Definition play_params : gmap string pyval :=
  {[ "host" := PNone; "port" := PNone; "username" := PStr "admin";
     "password" := PNone; "authorize" := PNone; "auth_pass" := PNone;
     "use_ssl" := PNone; "validate_certs" := PNone; "timeout" := PNone;
     "transport" := PStr "eapi";
     "provider" := PDict {[ "host" := PStr "sw1"; "username" := PStr "guest";
                            "password" := PStr "secret"; "port" := PNone;
                            "vendor" := PStr "arista" ]} ]}.

(** ** Strings *)

Section StripFacts.

Lemma strip_prefix_Some w l r :
  PyStr.strip_prefix w l = Some r ↔ l = w ++ r.
Proof.
  revert l. induction w as [|a w IH]; intros l; simpl.
  - split; [by intros [= ->]|by intros ->].
  - destruct l as [|b l]; [done|].
    destruct (Ascii.eqb a b) eqn:Hab.
    + apply Ascii.eqb_eq in Hab as ->. rewrite IH.
      split; [by intros ->|by intros [= ->]].
    + apply Ascii.eqb_neq in Hab. split; [done|]. intros [= -> _]. done.
Qed.

Lemma strip_prefix_None w l :
  PyStr.strip_prefix w l = None → ¬ w `prefix_of` l.
Proof.
  intros Hnone [r Hr]. apply strip_prefix_Some in Hr. congruence.
Qed.

Lemma skip_one_Some ws l r :
  PyStr.skip_one ws l = Some r → ∃ w, w ∈ ws ∧ l = w ++ r.
Proof.
  induction ws as [|w ws IH]; simpl; [done|].
  destruct (PyStr.strip_prefix w l) as [r'|] eqn:Hw.
  - intros [= ->]. exists w. split; [left|]. by apply strip_prefix_Some.
  - intros (w' & Hin & Hl)%IH. exists w'. split; [by right|done].
Qed.

Lemma skip_one_None ws l w :
  PyStr.skip_one ws l = None → w ∈ ws → ¬ w `prefix_of` l.
Proof.
  induction ws as [|w' ws IH]; simpl; [by intros _ ?%elem_of_nil|].
  destruct (PyStr.strip_prefix w' l) eqn:Hw; [done|].
  intros Hnone [->|Hin]%elem_of_cons; [by apply strip_prefix_None|by apply IH].
Qed.

(** What [skip_all] leaves out is a run of members of [ws]. *)
Lemma skip_all_split ws n l :
  ∃ pre, Forall (λ w, w ∈ ws) pre ∧ l = concat pre ++ PyStr.skip_all ws n l.
Proof.
  revert l. induction n as [|n IH]; intros l; simpl.
  - by exists [].
  - destruct (PyStr.skip_one ws l) as [r|] eqn:Hone; [|by exists []].
    apply skip_one_Some in Hone as (w & Hin & ->).
    destruct (IH r) as (pre & Hpre & Hr). exists (w :: pre).
    split; [by constructor|]. simpl. rewrite <- app_assoc. by rewrite <- Hr.
Qed.

(** With one unit of fuel for each byte nothing of [ws] is left in front. *)
Lemma skip_all_done ws n l :
  Forall (λ w, w ≠ []) ws → (length l ≤ n)%nat →
  PyStr.skip_one ws (PyStr.skip_all ws n l) = None.
Proof.
  intros Hws. revert l. induction n as [|n IH]; intros l Hn; simpl.
  - destruct l; [|simpl in Hn; lia]. clear Hn.
    induction Hws as [|w ws Hw _ IHws]; [done|]. simpl.
    destruct w; [done|]. done.
  - destruct (PyStr.skip_one ws l) as [r|] eqn:Hone; [|done].
    apply IH. apply skip_one_Some in Hone as (w & Hin & ->).
    rewrite Forall_forall in Hws. specialize (Hws w Hin).
    destruct w; [done|]. rewrite length_app in Hn. simpl in Hn. lia.
Qed.

Lemma space_chars_spec w :
  w ∈ PyStr.space_chars ↔ ∃ c, PyStr.isspace c = true ∧ w = PyStr.utf8 c.
Proof.
  unfold PyStr.space_chars, PyStr.isspace. rewrite list_elem_of_fmap.
  split; intros (c & H1 & H2); exists c.
  - split; [by apply bool_decide_eq_true|done].
  - split; [done|by apply bool_decide_eq_true in H1].
Qed.

Lemma space_chars_nonempty : Forall (λ w, w ≠ []) PyStr.space_chars.
Proof. by vm_compute; repeat constructor. Qed.

Lemma space_chars_reverse_nonempty :
  Forall (λ w, w ≠ []) (reverse <$> PyStr.space_chars).
Proof. by vm_compute; repeat constructor. Qed.

Lemma blank_run pre :
  Forall (λ w, w ∈ PyStr.space_chars) pre → PyStr.blank (concat pre).
Proof.
  induction 1 as [|w pre Hw _ (cs & Hcs & Heq)]; [by exists []|].
  apply space_chars_spec in Hw as (c & Hc & ->).
  exists (c :: cs). split; [by constructor|]. simpl. by rewrite Heq.
Qed.

Lemma reverse_concat {A} (xs : list (list A)) :
  reverse (concat xs) = concat (reverse (reverse <$> xs)).
Proof.
  induction xs as [|x xs IH]; [done|]. simpl.
  rewrite reverse_app, reverse_cons, concat_app, IH. simpl.
  by rewrite app_nil_r.
Qed.

Lemma lstrip_bytes_spec l :
  ∃ pre, PyStr.blank pre ∧ l = pre ++ PyStr.lstrip_bytes l
         ∧ ∀ c, PyStr.isspace c = true →
                ¬ PyStr.utf8 c `prefix_of` PyStr.lstrip_bytes l.
Proof.
  unfold PyStr.lstrip_bytes.
  destruct (skip_all_split PyStr.space_chars (length l) l) as (pre & Hpre & Hl).
  exists (concat pre). split; [by apply blank_run|]. split; [done|].
  intros c Hc. eapply skip_one_None.
  - by apply skip_all_done; [apply space_chars_nonempty|].
  - apply space_chars_spec. by exists c.
Qed.

Lemma rstrip_bytes_spec l :
  ∃ post, PyStr.blank post ∧ l = PyStr.rstrip_bytes l ++ post
          ∧ ∀ c, PyStr.isspace c = true →
                 ¬ PyStr.utf8 c `suffix_of` PyStr.rstrip_bytes l.
Proof.
  unfold PyStr.rstrip_bytes.
  set (ws := reverse <$> PyStr.space_chars).
  destruct (skip_all_split ws (length l) (reverse l)) as (pre & Hpre & Hl).
  exists (reverse (concat pre)). split; [|split].
  - rewrite reverse_concat. apply blank_run.
    apply Forall_forall. intros w Hw. rewrite elem_of_reverse in Hw.
    apply list_elem_of_fmap in Hw as (w' & -> & Hw').
    rewrite Forall_forall in Hpre. apply Hpre in Hw'.
    apply list_elem_of_fmap in Hw' as (w & -> & Hw).
    by rewrite reverse_involutive.
  - rewrite <- reverse_app, <- Hl. by rewrite reverse_involutive.
  - intros c Hc [k Hk].
    assert (PyStr.skip_one ws (PyStr.skip_all ws (length l) (reverse l)) = None)
      as Hnone.
    { apply skip_all_done; [apply space_chars_reverse_nonempty|].
      by rewrite length_reverse. }
    eapply skip_one_None in Hnone.
    + apply Hnone. exists (reverse k).
      rewrite <- reverse_app, <- Hk. by rewrite reverse_involutive.
    + apply list_elem_of_fmap. exists (PyStr.utf8 c).
      split; [done|]. apply space_chars_spec. by exists c.
Qed.

(** [strip] removes the white space characters at both ends and nothing
    else: the string is its stripped form between two runs of white
    space, and the stripped form neither starts nor ends with a white
    space character. *)
Lemma strip_trimmed s : PyStr.trimmed s (PyStr.strip s).
Proof.
  unfold PyStr.trimmed, PyStr.strip, PyStr.rstrip, PyStr.lstrip.
  rewrite !list_ascii_of_string_of_list_ascii.
  destruct (lstrip_bytes_spec (list_ascii_of_string s)) as (l & Hl & Hs & Hfirst).
  set (t := PyStr.lstrip_bytes (list_ascii_of_string s)) in *.
  destruct (rstrip_bytes_spec t) as (r & Hr & Ht & Hlast).
  exists l, r. split; [done|]. split; [done|].
  split; [by rewrite <- Ht|]. split; [|done].
  intros c Hc [k Hk]. apply (Hfirst c Hc). exists (k ++ r).
  rewrite Ht at 1. rewrite Hk. by rewrite <- app_assoc.
Qed.

(** Each white space character is taken off either end, whatever its
    width. *)
Lemma strip_each_space c :
  PyStr.isspace c = true →
  PyStr.strip (PyStr.text [c] +:+ "x" +:+ PyStr.text [c]) = "x".
Proof.
  intros Hc%bool_decide_eq_true. revert c Hc. apply Forall_forall.
  unfold PyStr.whitespace.
  repeat first [apply List.Forall_nil | apply List.Forall_cons; [by vm_compute|]].
Qed.

End StripFacts.

(** ** The command classifier *)

Section Strings.

Lemma endswith_unfold s suffix :
  PyStr.endswith s suffix =
  if String.eqb s suffix then true
  else match s with
       | EmptyString => false
       | String _ s' => PyStr.endswith s' suffix
       end.
Proof. by destruct s. Qed.

Lemma endswith_app p suffix : PyStr.endswith (p +:+ suffix) suffix = true.
Proof.
  induction p as [|c p IH]; rewrite endswith_unfold.
  - simpl. by rewrite String.eqb_refl.
  - destruct (String.eqb _ suffix); [done|]. exact IH.
Qed.

Lemma endswith_inv s suffix :
  PyStr.endswith s suffix = true → ∃ p, s = p +:+ suffix.
Proof.
  induction s as [|c s IH]; rewrite endswith_unfold.
  - destruct (String.eqb "" suffix) eqn:E; [|done].
    apply String.eqb_eq in E. exists "". by rewrite <- E.
  - destruct (String.eqb (String c s) suffix) eqn:E.
    + apply String.eqb_eq in E. exists "". by rewrite E.
    + intros H. destruct (IH H) as [p ->]. by exists (String c p).
Qed.

Lemma endswith_iff s suffix :
  PyStr.endswith s suffix = true ↔ ∃ p, s = p +:+ suffix.
Proof.
  split; [apply endswith_inv|]. intros [p ->]. apply endswith_app.
Qed.

End Strings.

(** C7. A command is classified as structured exactly when it ends with
    the suffix "| json", as plain text exactly when it does not, and
    [is_text] is the complement of [is_json]. *)
Theorem classifier_trailing_marker (x : string) :
  (is_json x = true ↔ ∃ p, x = p +:+ "| json")
  ∧ (is_text x = true ↔ ¬ ∃ p, x = p +:+ "| json")
  ∧ is_text x = negb (is_json x).
Proof.
  unfold is_json, is_text. split; [apply endswith_iff|]. split; [|done].
  rewrite <- endswith_iff. destruct (PyStr.endswith x "| json"); simpl.
  - split; [done|]. intros H. by destruct H.
  - split; [|done]. intros _ H. discriminate.
Qed.

Section EapiFacts.

Context {Device : Type} (fetch_url : Device → Request → Reply * Device).

Local Abbreviation State := (Eapi.State Device).

Lemma send_request_eq commands output (st : State) enable url :
  Eapi.attrs st !! "_enable" = Some enable →
  Eapi.attrs st !! "_url" = Some url →
  let req := request_for st enable url commands output in
  Eapi.send_request fetch_url commands output st
  = (received enable (fetch_url (Eapi.device st) req).1,
     fetched fetch_url st req).
Proof.
  intros He Hu. unfold Eapi.send_request, bind, Eapi.getattr.
  rewrite He, Hu. simpl. unfold Eapi.fetch, fetched, request_for.
  destruct (fetch_url _ _) as [reply dev] eqn:Hf. simpl.
  destruct reply as [headers|data|response]; simpl; try done.
  rewrite He. destruct (response !! "result") as [result|]; [|done].
  destruct (truthy enable); [|done].
  unfold lift. by destruct (pop0 result).
Qed.

Lemma _send_eq commands output (st : State) enable url :
  Eapi.attrs st !! "_enable" = Some enable →
  Eapi.attrs st !! "_url" = Some url →
  let req := request_for st enable url commands output in
  Eapi._send fetch_url commands output st
  = (answered enable (fetch_url (Eapi.device st) req).1,
     fetched fetch_url st req).
Proof.
  intros He Hu. unfold Eapi._send, bind.
  rewrite (send_request_eq _ _ _ _ _ He Hu). simpl. unfold answered.
  destruct (received enable _) as [e|response]; [done|].
  unfold judged, lift, Eapi.fail_json, raise.
  destruct (response !! "error") as [err|]; [|done].
  destruct (getitem err "message"); [done|].
  by destruct (getitem err "code").
Qed.

(** Without the attributes that [send_request] reads, nothing is sent. *)
Lemma _send_cases commands output (st : State) :
  (∃ e, Eapi._send fetch_url commands output st = (inl e, st))
  ∨ (∃ enable url,
        Eapi.attrs st !! "_enable" = Some enable
        ∧ Eapi.attrs st !! "_url" = Some url
        ∧ let req := request_for st enable url commands output in
          Eapi._send fetch_url commands output st
          = (answered enable (fetch_url (Eapi.device st) req).1,
             fetched fetch_url st req)).
Proof.
  destruct (Eapi.attrs st !! "_enable") as [enable|] eqn:He.
  - destruct (Eapi.attrs st !! "_url") as [url|] eqn:Hu.
    + right. exists enable, url. split; [done|]. split; [done|].
      by apply _send_eq.
    + left. unfold Eapi._send, Eapi.send_request, bind, Eapi.getattr.
      rewrite He, Hu. eauto.
  - left. unfold Eapi._send, Eapi.send_request, bind, Eapi.getattr.
    rewrite He. eauto.
Qed.

(** A reply that makes [_send] return carries no error indicator. *)
Lemma answered_inr enable reply v :
  answered enable reply = inr v → error_of reply = None.
Proof.
  unfold answered, received.
  destruct reply as [?|?|response]; try done. simpl.
  assert (∀ r, judged r = inr v → r !! "error" = None) as Hj.
  { intros r. unfold judged. destruct (r !! "error") as [err|]; [|done].
    destruct (getitem err "message"); [done|]. by destruct (getitem err "code"). }
  destruct (response !! "result") as [result|] eqn:Hr; [|apply Hj].
  destruct (truthy enable); [|apply Hj].
  destruct (pop0 result) as [|result']; [done|].
  intros H. apply Hj in H. by rewrite lookup_insert_ne in H.
Qed.

Lemma answered_device_error enable reply m c :
  device_error reply m c →
  answered enable reply = inl (FailJson {[ "msg" := m; "code" := c ]}).
Proof.
  intros (response & err & -> & Herr & Hm & Hc & Hres).
  unfold answered, received.
  assert (∀ r, r !! "error" = Some (PDict err) →
               judged r = inl (FailJson {[ "msg" := m; "code" := c ]})) as Hj.
  { intros r Hr. unfold judged. rewrite Hr. simpl. by rewrite Hm, Hc. }
  destruct Hres as [->|(x & l & ->)]; [by apply Hj|].
  destruct (truthy enable); [|by apply Hj]. simpl.
  apply Hj. by rewrite lookup_insert_ne.
Qed.

Lemma outcome_app {A} (r : exn + A) new1 new2 :
  clean new1 → outcome r new2 → outcome r (new1 ++ new2).
Proof.
  intros H1. destruct r as [e|a]; simpl.
  - intros [H2|(pre & x & -> & Hpre & Hx)].
    + left. by apply Forall_app.
    + right. exists (new1 ++ pre), x. rewrite (assoc_L (++)).
      split; [done|]. split; [by apply Forall_app|done].
  - intros H2. by apply Forall_app.
Qed.

Lemma _send_step commands output (st : State) r st' :
  Eapi._send fetch_url commands output st = (r, st') →
  Eapi.attrs st' = Eapi.attrs st
  ∧ ∃ new, Eapi.trace st' = Eapi.trace st ++ new
      ∧ outcome r new
      ∧ (length new ≤ 1)%nat
      ∧ ∀ v, r = inr v → length new = 1.
Proof.
  destruct (_send_cases commands output st)
    as [[e ->]|(enable & url & He & Hu & ->)]; intros [= <- <-].
  - split; [done|]. exists []. rewrite (right_id_L [] (++)).
    split; [done|]. split; [by left; constructor|]. split; [simpl; lia|done].
  - split; [done|]. eexists. split; [reflexivity|]. split; [|done].
    destruct (answered enable _) as [e|v] eqn:Ha; simpl.
    + right. eexists [], _. split; [reflexivity|]. split; [constructor|].
      intros m c Hd. simpl in Hd.
      apply (answered_device_error enable) in Hd. congruence.
    + constructor; [|constructor]. simpl. by eapply answered_inr.
Qed.

(** The requests of the first loop: how the call may end, and how many
    requests it has made. *)
Lemma batch_loop_spec items : ∀ output queue responses (st : State) r st',
  Eapi.batch_loop fetch_url items output queue responses st = (r, st') →
  Eapi.attrs st' = Eapi.attrs st
  ∧ ∃ new, Eapi.trace st' = Eapi.trace st ++ new
      ∧ outcome r new
      ∧ (length new ≤ flushes output items)%nat
      ∧ ∀ o q rs, r = inr (o, q, rs) →
          length new = flushes output items
          ∧ (queue ≠ [] ∨ items ≠ [] → q ≠ []).
Proof.
  induction items as [|item items IH]; intros output queue responses st r st'.
  - intros [= <- <-]. split; [done|]. exists [].
    rewrite !(right_id_L [] (++)). split; [done|]. split; [constructor|].
    split; [done|].
    intros o q rs [= <- <- <-]. split; [done|]. intros [H|H]; done.
  - cbn [Eapi.batch_loop flushes]. unfold bind at 1.
    destruct (Eapi.format_change output item) eqn:Hfc.
    + unfold bind at 1.
      destruct (Eapi._send fetch_url queue output st) as [[e|v] st1] eqn:Hsend;
        destruct (_send_step _ _ _ _ _ Hsend)
          as (Ha1 & new1 & Ht1 & Ho1 & Hle1 & Hb1).
      { intros [= <- <-]. split; [done|]. exists new1. split; [done|].
        split; [done|]. split; [lia|]. intros ??? [=]. }
      specialize (Hb1 v eq_refl).
      unfold bind at 1, lift at 1.
      destruct (extend responses v) as [e|responses'].
      { intros [= <- <-]. split; [done|]. exists new1. split; [done|].
        split; [by left|]. split; [lia|]. intros ??? [=]. }
      unfold ret at 1. intros Hloop.
      destruct (IH _ _ _ _ _ _ Hloop) as (Ha2 & new2 & Ht2 & Ho2 & Hle2 & Hb2).
      split; [congruence|]. exists (new1 ++ new2).
      split; [by rewrite Ht2, Ht1, (assoc_L (++))|].
      split; [by apply outcome_app|].
      rewrite length_app, Hb1. split; [lia|].
      intros o q rs Hr. destruct (Hb2 o q rs Hr) as (Hlen & Hq).
      split; [by rewrite Hlen|].
      intros _. apply Hq. by left.
    + unfold ret at 1. intros Hloop.
      destruct (IH _ _ _ _ _ _ Hloop) as (Ha2 & new2 & Ht2 & Ho2 & Hle2 & Hb2).
      split; [done|]. exists new2. split; [done|]. split; [done|].
      split; [simpl; lia|].
      intros o q rs Hr. destruct (Hb2 o q rs Hr) as (Hlen & Hq).
      split; [simpl; by rewrite Hlen|].
      intros _. apply Hq. left. by destruct queue.
Qed.

Lemma flushes_transitions a l :
  flushes (if is_json a then Some Json else Some Text) l
  = format_transitions (a :: l).
Proof.
  revert a. induction l as [|b l IH]; intros a; [done|].
  cbn [flushes format_transitions]. rewrite IH. f_equal.
  unfold Eapi.format_change, is_text. fold (is_json b).
  by destruct (is_json a), (is_json b).
Qed.

Lemma flushes_expected commands :
  flushes None commands + (if commands is [] then 0 else 1)
  = expected_requests commands.
Proof.
  destruct commands as [|a l]; [done|].
  cbn [flushes expected_requests]. rewrite flushes_transitions.
  unfold Eapi.format_change. simpl. lia.
Qed.

(** A sequence of one format has no transition: one request. *)
Lemma uniform_format_one_request (b : bool) commands :
  commands ≠ [] → Forall (λ c, is_json c = b) commands →
  expected_requests commands = 1.
Proof.
  intros Hne Hall. destruct commands as [|a l]; [done|].
  unfold expected_requests. f_equal.
  revert a Hne Hall. induction l as [|c l IH]; intros a _ Hall; [done|].
  change (format_transitions (a :: c :: l))
    with ((if Bool.eqb (is_json a) (is_json c) then 0 else 1)
          + format_transitions (c :: l)).
  apply Forall_cons_1 in Hall as [Ha Hall].
  pose proof Hall as [Hc _]%Forall_cons_1.
  rewrite Ha, Hc, Bool.eqb_reflx. by apply IH.
Qed.

Lemma batch_loop_nil output queue responses (st : State) :
  Eapi.batch_loop fetch_url [] output queue responses st
  = (inr (output, queue, responses), st).
Proof. done. Qed.

Lemma collect_spec commands (st : State) r st' :
  Eapi.collect fetch_url commands st = (r, st') →
  Eapi.attrs st' = Eapi.attrs st
  ∧ ∃ new, Eapi.trace st' = Eapi.trace st ++ new
      ∧ outcome r new
      ∧ (length new ≤ expected_requests commands)%nat
      ∧ ∀ rs, r = inr rs → length new = expected_requests commands.
Proof.
  unfold Eapi.collect, bind at 1.
  destruct (Eapi.batch_loop _ _ _ _ _ _) as [[e|[[o q] rs]] st1] eqn:Hloop;
    destruct (batch_loop_spec _ _ _ _ _ _ _ Hloop)
      as (Ha1 & new1 & Ht1 & Ho1 & Hle1 & Hb1);
    rewrite <- flushes_expected.
  { intros [= <- <-]. split; [done|]. exists new1. split; [done|].
    split; [done|]. split; [lia|]. intros ? [=]. }
  destruct (Hb1 o q rs eq_refl) as (Hlen & Hq).
  destruct q as [|c q].
  - intros [= <- <-]. split; [done|]. exists new1. split; [done|].
    split; [done|]. split; [lia|]. intros ? _.
    destruct commands as [|a l]; [|exfalso; apply Hq; [by right|done]].
    simpl in *; lia.
  - assert (commands ≠ []) as Hne.
    { intros ->. rewrite batch_loop_nil in Hloop. by injection Hloop. }
    assert ((if commands is [] then 0 else 1) = 1) as -> by by destruct commands.
    unfold bind at 1.
    destruct (Eapi._send _ _ _ _) as [[e|v] st2] eqn:Hsend;
      destruct (_send_step _ _ _ _ _ Hsend)
        as (Ha2 & new2 & Ht2 & Ho2 & Hle2 & Hb2).
    { intros [= <- <-]. split; [congruence|]. exists (new1 ++ new2).
      split; [by rewrite Ht2, Ht1, (assoc_L (++))|].
      split; [by apply outcome_app|].
      rewrite length_app. split; [lia|]. intros ? [=]. }
    specialize (Hb2 v eq_refl).
    unfold lift. intros [= <- <-]. split; [congruence|].
    exists (new1 ++ new2).
    split; [by rewrite Ht2, Ht1, (assoc_L (++))|].
    split.
    { destruct (extend rs v); simpl; [left|]; apply Forall_app; split;
        try done; by destruct Ho2. }
    rewrite length_app, Hlen, Hb2. split; [lia|done].
Qed.

Lemma run_commands_spec commands (st : State) r st' :
  Eapi.run_commands fetch_url commands st = (r, st') →
  Eapi.attrs st' = Eapi.attrs st
  ∧ ∃ new, Eapi.trace st' = Eapi.trace st ++ new
      ∧ outcome r new
      ∧ (length new ≤ expected_requests commands)%nat
      ∧ ∀ rs, r = inr rs → length new = expected_requests commands.
Proof.
  unfold Eapi.run_commands, bind.
  destruct (Eapi.collect _ _ _) as [[e|responses] st1] eqn:Hc;
    destruct (collect_spec _ _ _ _ Hc) as (Ha & new & Ht & Ho & Hle & Hb);
    intros [= <- <-]; (split; [done|]); exists new; (split; [done|]).
  - split; [done|]. split; [done|]. intros ? [=].
  - split; [|split; [done|intros rs _; by apply (Hb responses)]].
    simpl in Ho. destruct (Eapi.unwrap_loop _ _ _); simpl; auto.
Qed.

(** *** Replies of a device that answers every command *)

Section Answers.

Context (ans : option Format → string → pyval) (out : string → string).
Hypothesis device_answers : answers fetch_url ans.
Hypothesis device_text : text_output ans out.

Lemma _send_answers queue f (st : State) :
  is_Some (Eapi.attrs st !! "_enable") →
  is_Some (Eapi.attrs st !! "_url") →
  ∃ st', Eapi._send fetch_url queue (Some f) st
         = (inr (PList (ans (Some f) <$> queue)), st')
         ∧ Eapi.attrs st' = Eapi.attrs st.
Proof.
  intros [enable He] [url Hu].
  rewrite (_send_eq _ _ _ _ _ He Hu). simpl.
  exists (fetched fetch_url st (request_for st enable url queue (Some f))).
  split; [|done]. f_equal.
  destruct (device_answers (Eapi.device st) (request_for st enable url queue (Some f)))
    as (response & -> & Herr & Hres).
  unfold request_for in Hres.
  cbn [req_data params cmds format Eapi._request_builder] in Hres.
  unfold answered, received. rewrite Hres.
  destruct (truthy enable); simpl; unfold judged;
    rewrite ?lookup_insert_ne, ?Herr by done; simpl;
    rewrite ?lookup_insert_eq, ?Hres; reflexivity.
Qed.

Lemma format_change_false f item :
  Eapi.format_change (Some f) item = false → f = format_of item.
Proof.
  unfold Eapi.format_change, format_of, is_text. fold (is_json item).
  by destruct f, (is_json item).
Qed.

Lemma format_change_true output item :
  Eapi.format_change output item = true → ∃ f, output = Some f.
Proof. destruct output as [f|]; [eauto|done]. Qed.

Lemma batch_loop_answers items : ∀ output queue responses (st : State),
  (∀ c, c ∈ queue → output = Some (format_of c)) →
  is_Some (Eapi.attrs st !! "_enable") →
  is_Some (Eapi.attrs st !! "_url") →
  ∃ o q rs st',
    Eapi.batch_loop fetch_url items output queue responses st
    = (inr (o, q, rs), st')
    ∧ Eapi.attrs st' = Eapi.attrs st
    ∧ (∀ c, c ∈ q → o = Some (format_of c))
    ∧ rs ++ (raw ans <$> q) = responses ++ (raw ans <$> queue ++ items).
Proof.
  induction items as [|item items IH]; intros output queue responses st Hq He Hu.
  - exists output, queue, responses, st. by rewrite (right_id_L [] (++)).
  - cbn [Eapi.batch_loop]. unfold bind at 1.
    assert (∀ c, c ∈ [item] →
              (if is_json item then Some Json else Some Text) = Some (format_of c))
      as Hitem.
    { intros c ->%list_elem_of_singleton. unfold format_of. by destruct (is_json item). }
    destruct (Eapi.format_change output item) eqn:Hfc.
    + destruct (format_change_true _ _ Hfc) as [f ->].
      unfold bind at 1.
      destruct (_send_answers queue f st He Hu) as (st1 & -> & Ha1).
      unfold bind at 1, lift at 1, extend, ret at 1.
      destruct (IH (if is_json item then Some Json else Some Text) ([] ++ [item])
                  (responses ++ (ans (Some f) <$> queue)) st1)
        as (o & q & rs & st' & -> & Ha & Hq' & Hrs);
        [done|by rewrite Ha1|by rewrite Ha1|].
      exists o, q, rs, st'. split; [done|]. split; [congruence|]. split; [done|].
      rewrite Hrs, !fmap_app, <- !(assoc_L (++)). f_equal. f_equal.
      apply list_fmap_ext. intros i c Hc. unfold raw.
      rewrite <- (Hq c); [done|]. by eapply list_elem_of_lookup_2.
    + unfold ret at 1.
      destruct (IH (if is_json item then Some Json else Some Text) (queue ++ [item])
                  responses st)
        as (o & q & rs & st' & -> & Ha & Hq' & Hrs); [|done|done|].
      { intros c [Hc|Hc]%elem_of_app; [|by apply Hitem].
        specialize (Hq c Hc). subst output.
        apply format_change_false in Hfc. rewrite Hfc.
        unfold format_of. by destruct (is_json item). }
      exists o, q, rs, st'. split; [done|]. split; [done|]. split; [done|].
      by rewrite Hrs, <- (assoc_L (++)).
Qed.

Lemma collect_answers commands (st : State) :
  is_Some (Eapi.attrs st !! "_enable") →
  is_Some (Eapi.attrs st !! "_url") →
  ∃ st', Eapi.collect fetch_url commands st = (inr (raw ans <$> commands), st').
Proof.
  intros He Hu. unfold Eapi.collect, bind at 1.
  destruct (batch_loop_answers commands None [] [] st)
    as (o & q & rs & st1 & -> & Ha & Hq & Hrs); [by intros ? ?%elem_of_nil|done..|].
  simpl in Hrs. destruct q as [|c q].
  - rewrite fmap_nil, (right_id_L [] (++)) in Hrs. subst rs. by exists st1.
  - rewrite (Hq c) by apply list_elem_of_here. unfold bind.
    destruct (_send_answers (c :: q) (format_of c) st1) as (st2 & -> & Ha2);
      [by rewrite Ha..|].
    exists st2. unfold lift, extend. f_equal. f_equal. rewrite <- Hrs. f_equal.
    apply list_fmap_ext. intros i c' Hc'. unfold raw.
    assert (Some (format_of c) = Some (format_of c')) as [= ->]; [|done].
    rewrite <- (Hq c) by apply list_elem_of_here.
    apply Hq. by eapply list_elem_of_lookup_2.
Qed.

Lemma unwrap_loop_answers commands : ∀ pre,
  Eapi.unwrap_loop (length pre) commands (pre ++ (raw ans <$> commands))
  = inr (pre ++ (expected ans out <$> commands)).
Proof.
  induction commands as [|c commands IH]; intros pre; [done|].
  rewrite !fmap_cons. cbn [Eapi.unwrap_loop].
  assert (Eapi.unwrap_loop (S (length pre)) commands
            (pre ++ expected ans out c :: (raw ans <$> commands))
          = inr (pre ++ expected ans out c :: (expected ans out <$> commands)))
    as Hnext.
  { specialize (IH (pre ++ [expected ans out c])).
    rewrite length_app in IH. simpl in IH. rewrite Nat.add_1_r in IH.
    by rewrite <- !(assoc_L (++)) in IH. }
  unfold is_text. fold (is_json c).
  destruct (is_json c) eqn:Hj; simpl.
  - assert (raw ans c = expected ans out c) as ->; [|done].
    unfold raw, expected, format_of. by rewrite Hj.
  - rewrite list_lookup_middle by done.
    assert (raw ans c = ans (Some Text) c) as ->.
    { unfold raw, format_of. by rewrite Hj. }
    destruct (device_text c) as (d & -> & Hd). simpl. rewrite Hd. simpl.
    rewrite insert_app_r_alt by done. rewrite Nat.sub_diag. simpl.
    assert (expected ans out c = PStr (PyStr.strip (out c))) as <-; [|done].
    unfold expected. by rewrite Hj.
Qed.

Lemma run_commands_answers commands (st : State) :
  is_Some (Eapi.attrs st !! "_enable") →
  is_Some (Eapi.attrs st !! "_url") →
  ∃ st', Eapi.run_commands fetch_url commands st
         = (inr (expected ans out <$> commands), st').
Proof.
  intros He Hu. unfold Eapi.run_commands, bind.
  destruct (collect_answers commands st He Hu) as [st' ->].
  exists st'. unfold lift. f_equal. apply (unwrap_loop_answers commands []).
Qed.

End Answers.

(** *** Requests and results of a run that ends well *)

Lemma extend_inr rs v rs' :
  extend rs v = inr rs' → ∃ l, extend [] v = inr l ∧ rs' = rs ++ l.
Proof. destruct v; simpl; intros [= <-]; eauto. Qed.

Lemma _send_inr commands output (st : State) v st' enable :
  Eapi._send fetch_url commands output st = (inr v, st') →
  Eapi.attrs st !! "_enable" = Some enable →
  ∃ entry, Eapi.trace st' = Eapi.trace st ++ [entry]
    ∧ Eapi.attrs st' = Eapi.attrs st
    ∧ batch enable entry = commands
    ∧ format (params (req_data entry.1)) = output
    ∧ answered enable entry.2 = inr v.
Proof.
  intros Hs He.
  destruct (_send_cases commands output st)
    as [[e He']|(enable' & url & He' & Hu & Hs')]; [congruence|].
  assert (enable' = enable) as -> by congruence.
  simpl in Hs'. rewrite Hs' in Hs. injection Hs as Hv <-.
  eexists. split; [reflexivity|]. split; [done|]. split; [|done].
  unfold batch, sent. simpl. by destruct (truthy enable).
Qed.

Lemma batch_loop_order items :
  ∀ output queue responses (st : State) o q rs st' enable,
  Eapi.batch_loop fetch_url items output queue responses st
  = (inr (o, q, rs), st') →
  Eapi.attrs st !! "_enable" = Some enable →
  (∀ c, c ∈ queue → output = Some (format_of c)) →
  ∃ new, Eapi.trace st' = Eapi.trace st ++ new
    ∧ Eapi.attrs st' = Eapi.attrs st
    ∧ concat (batch enable <$> new) ++ q = queue ++ items
    ∧ rs = responses ++ concat (payload enable <$> new)
    ∧ Forall (tagged enable) new
    ∧ (∀ c, c ∈ q → o = Some (format_of c)).
Proof.
  induction items as [|item items IH];
    intros output queue responses st o q rs st' enable.
  - intros [= <- <- <- <-] He Hq. exists [].
    rewrite !(right_id_L [] (++)), fmap_nil. simpl.
    rewrite (right_id_L [] (++)). repeat split; [constructor|done].
  - cbn [Eapi.batch_loop]. unfold bind at 1. intros Hloop He Hq.
    assert (∀ c, c ∈ [item] →
              (if is_json item then Some Json else Some Text) = Some (format_of c))
      as Hitem.
    { intros c ->%list_elem_of_singleton. unfold format_of. by destruct (is_json item). }
    destruct (Eapi.format_change output item) eqn:Hfc.
    + unfold bind at 1 in Hloop.
      destruct (Eapi._send fetch_url queue output st) as [[e|v] st1] eqn:Hsend;
        [done|].
      destruct (_send_inr _ _ _ _ _ _ Hsend He) as (entry & Ht1 & Ha1 & Hb & Hf & Hv).
      unfold bind at 1, lift at 1 in Hloop.
      destruct (extend responses v) as [e|responses'] eqn:Hext; [done|].
      destruct (extend_inr _ _ _ Hext) as (l & Hl & ->).
      unfold ret at 1 in Hloop.
      destruct (IH _ _ _ _ _ _ _ _ enable Hloop)
        as (new & Ht & Ha & Hcat & Hrs & Htag & Hq');
        [by rewrite Ha1|done|].
      exists (entry :: new).
      split; [by rewrite Ht, Ht1, <- (assoc_L (++))|].
      split; [congruence|]. rewrite !fmap_cons. cbn [concat].
      split; [by rewrite Hb, <- (assoc_L (++)), Hcat|].
      split.
      { rewrite Hrs, <- (assoc_L (++)). do 2 f_equal.
        unfold payload. by rewrite Hv, Hl. }
      split; [|done]. constructor; [|done].
      intros c Hc. rewrite Hf. apply Hq. by rewrite <- Hb.
    + unfold ret at 1 in Hloop.
      destruct (IH _ _ _ _ _ _ _ _ enable Hloop)
        as (new & Ht & Ha & Hcat & Hrs & Htag & Hq');
        [done| |].
      { intros c [Hc|Hc]%elem_of_app; [|by apply Hitem].
        specialize (Hq c Hc). subst output.
        apply format_change_false in Hfc. rewrite Hfc.
        unfold format_of. by destruct (is_json item). }
      exists new. split; [done|]. split; [done|].
      split; [by rewrite Hcat, <- (assoc_L (++))|]. done.
Qed.

Lemma collect_order commands (st : State) rs st' enable :
  Eapi.collect fetch_url commands st = (inr rs, st') →
  Eapi.attrs st !! "_enable" = Some enable →
  ∃ new, Eapi.trace st' = Eapi.trace st ++ new
    ∧ concat (batch enable <$> new) = commands
    ∧ rs = concat (payload enable <$> new)
    ∧ Forall (tagged enable) new.
Proof.
  unfold Eapi.collect, bind at 1. intros Hc He.
  destruct (Eapi.batch_loop _ _ _ _ _ _) as [[e|[[o q] rs1]] st1] eqn:Hloop; [done|].
  destruct (batch_loop_order _ _ _ _ _ _ _ _ _ enable Hloop He)
    as (new & Ht & Ha & Hcat & Hrs & Htag & Hq); [by intros ? ?%elem_of_nil|].
  simpl in Hcat, Hrs. destruct q as [|c q].
  - injection Hc as <- <-. exists new.
    by rewrite (right_id_L [] (++)) in Hcat.
  - unfold bind at 1 in Hc.
    destruct (Eapi._send _ _ _ _) as [[e|v] st2] eqn:Hsend; [done|].
    rewrite <- Ha in He.
    destruct (_send_inr _ _ _ _ _ _ Hsend He) as (entry & Ht1 & Ha1 & Hb & Hf & Hv).
    unfold lift in Hc. injection Hc as Hext <-.
    destruct (extend_inr _ _ _ Hext) as (l & Hl & ->).
    exists (new ++ [entry]).
    split; [by rewrite Ht1, Ht, <- (assoc_L (++))|].
    rewrite !fmap_app, !concat_app. simpl. rewrite !(right_id_L [] (++)).
    split; [by rewrite Hb|].
    split; [unfold payload; by rewrite Hv, Hl, Hrs|].
    apply Forall_app. split; [done|]. constructor; [|done].
    intros c' Hc'. rewrite Hf. apply Hq. by rewrite <- Hb.
Qed.

(** *** The second loop *)

Lemma getitem_inr v key x :
  getitem v key = inr x → ∃ d, v = PDict d ∧ d !! key = Some x.
Proof.
  destruct v as [| | | | |d|]; try done. simpl.
  destruct (d !! key) eqn:Hd; [|done]. intros [= <-]. eauto.
Qed.

Lemma strip_method_inr v x :
  strip_method v = inr x → ∃ s, v = PStr s ∧ x = PStr (PyStr.strip s).
Proof. destruct v; try done. simpl. intros [= <-]. eauto. Qed.

Lemma unwrap_loop_spec commands : ∀ (index : nat) responses rs,
  Eapi.unwrap_loop index commands responses = inr rs →
  length rs = length responses
  ∧ (∀ j : nat, (j < index ∨ index + length commands ≤ j)%nat →
        rs !! j = responses !! j)
  ∧ ∀ (k : nat) c, commands !! k = Some c →
      (is_text c = true →
         ∃ d s, responses !! (index + k)%nat = Some (PDict d)
                ∧ d !! "output" = Some (PStr s)
                ∧ rs !! (index + k)%nat = Some (PStr (PyStr.strip s)))
      ∧ (is_json c = true → rs !! (index + k)%nat = responses !! (index + k)%nat).
Proof.
  induction commands as [|item commands IH]; intros index responses rs.
  - intros [= <-]. split; [done|]. split; [done|]. intros k c. by rewrite lookup_nil.
  - cbn [Eapi.unwrap_loop]. destruct (is_text item) eqn:Htext.
    + destruct (responses !! index) as [r|] eqn:Hr; [|done].
      destruct (getitem r "output") as [|o] eqn:Ho; [done|].
      destruct (strip_method o) as [|x] eqn:Hx; [done|].
      apply getitem_inr in Ho as (d & -> & Hd).
      apply strip_method_inr in Hx as (s & -> & ->).
      intros Hloop. destruct (IH _ _ _ Hloop) as (Hlen & Hout & Hin).
      rewrite length_insert in Hlen. split; [done|]. split.
      { intros j Hj. rewrite Hout by (simpl in Hj; lia).
        apply list_lookup_insert_ne. simpl in Hj. lia. }
      intros [|k] c Hc.
      * injection Hc as ->. rewrite Nat.add_0_r. split.
        -- intros _. exists d, s. split; [done|]. split; [done|].
           rewrite Hout by lia. apply list_lookup_insert_eq.
           by eapply lookup_lt_Some.
        -- unfold is_text in Htext. unfold is_json. intros H.
           by rewrite H in Htext.
      * simpl in Hc. destruct (Hin k c Hc) as [Ht Hj].
        replace (index + S k) with (S index + k) by lia. split.
        -- intros H. destruct (Ht H) as (d' & s' & H1 & H2 & H3).
           rewrite list_lookup_insert_ne in H1 by lia. eauto.
        -- intros H. rewrite (Hj H). apply list_lookup_insert_ne. lia.
    + intros Hloop. destruct (IH _ _ _ Hloop) as (Hlen & Hout & Hin).
      split; [done|]. split.
      { intros j Hj. apply Hout. simpl in Hj. lia. }
      intros [|k] c Hc.
      * injection Hc as ->. rewrite Nat.add_0_r. split; [congruence|].
        intros _. apply Hout. lia.
      * simpl in Hc. replace (index + S k) with (S index + k) by lia.
        by apply Hin.
Qed.

(** *** The response batcher *)

Lemma trace_lookup_new (st st' : State) new i :
  Eapi.trace st' = Eapi.trace st ++ new →
  Eapi.trace st' !! (length (Eapi.trace st) + i) = new !! i.
Proof. intros ->. by rewrite lookup_app_r, Nat.add_comm, Nat.add_sub by lia. Qed.

(** C1. [run_commands] on an empty sequence returns an empty sequence and
    sends nothing.  No call sends more than [expected_requests commands]
    requests, that is [1 + format_transitions commands] for a non-empty
    sequence and none for the empty one, and a call that returns has sent
    exactly that many; the batches of these requests, one after the
    other, are the commands in their order, each request is tagged with
    the format of its commands, and the results are made of the results
    of the replies in that same order.  On a device that answers every
    command, the call returns, with the result of the i-th command in
    place i. *)
Theorem run_commands_batching (st : State) (commands : list string) :
  Eapi.run_commands fetch_url [] st = (inr [], st)
  ∧ (length (Eapi.trace (Eapi.run_commands fetch_url commands st).2)
     ≤ length (Eapi.trace st) + expected_requests commands)%nat
  ∧ (∀ rs st' enable,
       Eapi.run_commands fetch_url commands st = (inr rs, st') →
       Eapi.attrs st !! "_enable" = Some enable →
       ∃ new, Eapi.trace st' = Eapi.trace st ++ new
         ∧ length new = expected_requests commands
         ∧ concat (batch enable <$> new) = commands
         ∧ Forall (tagged enable) new
         ∧ Eapi.unwrap_loop 0 commands (concat (payload enable <$> new)) = inr rs)
  ∧ (∀ ans out,
       answers fetch_url ans → text_output ans out →
       is_Some (Eapi.attrs st !! "_enable") →
       is_Some (Eapi.attrs st !! "_url") →
       ∃ st', Eapi.run_commands fetch_url commands st
              = (inr (expected ans out <$> commands), st')
         ∧ length (Eapi.trace st')
           = length (Eapi.trace st) + expected_requests commands).
Proof.
  split; [done|]. split; [|split].
  - destruct (Eapi.run_commands fetch_url commands st) as [r st'] eqn:Hrun.
    destruct (run_commands_spec _ _ _ _ Hrun) as (_ & new & Ht & _ & Hle & _).
    simpl. rewrite Ht, length_app. lia.
  - intros rs st' enable Hrun He.
    destruct (run_commands_spec _ _ _ _ Hrun) as (_ & new & Ht & _ & _ & Hlen).
    specialize (Hlen rs eq_refl).
    unfold Eapi.run_commands, bind in Hrun.
    destruct (Eapi.collect _ _ _) as [[e|responses] st1] eqn:Hc; [done|].
    unfold lift in Hrun. injection Hrun as Hun <-.
    destruct (collect_order _ _ _ _ _ Hc He) as (new' & Ht' & Hcat & -> & Htag).
    assert (new' = new) as -> by (rewrite Ht in Ht'; by apply (inj (app _)) in Ht').
    by exists new.
  - intros ans out Hans Hout He Hu.
    destruct (run_commands_answers ans out Hans Hout commands st He Hu) as [st' Hrun].
    exists st'. split; [done|].
    destruct (run_commands_spec _ _ _ _ Hrun) as (_ & new & -> & _ & _ & Hlen).
    by rewrite length_app, (Hlen _ eq_refl).
Qed.

(** C5. When the reply to a request of [run_commands] is a device error,
    the call ends in [fail_json] with the message and the code of that
    reply, it returns no results, and the request is the last one sent. *)
Theorem run_commands_device_error (st : State) (commands : list string)
    (i : nat) (req : Request) (reply : Reply) (m c : pyval) :
  let run := Eapi.run_commands fetch_url commands st in
  Eapi.trace run.2 !! (length (Eapi.trace st) + i)%nat = Some (req, reply) →
  device_error reply m c →
  run.1 = inl (FailJson {[ "msg" := m; "code" := c ]})
  ∧ length (Eapi.trace run.2) = (length (Eapi.trace st) + S i)%nat.
Proof.
  intros run. destruct run as [r st'] eqn:Hrun. subst run. simpl.
  destruct (run_commands_spec _ _ _ _ Hrun) as (_ & new & Ht & Ho & _ & _).
  rewrite (trace_lookup_new _ _ _ _ Ht). intros Hi Hd.
  assert (error_of reply ≠ None) as Herr.
  { destruct Hd as (response & err & -> & Herr & _). simpl. by rewrite Herr. }
  assert (¬ clean new) as Hdirty.
  { intros Hclean. apply Herr.
    by apply (Forall_lookup_1 _ _ _ _ Hclean Hi). }
  destruct r as [e|rs]; [|done].
  destruct Ho as [?|(pre & x & -> & Hpre & Hx)]; [done|].
  destruct (decide (i < length pre)) as [Hlt|Hge].
  { rewrite lookup_app_l in Hi by done. exfalso. apply Herr.
    by apply (Forall_lookup_1 _ _ _ _ Hpre Hi). }
  rewrite lookup_app_r in Hi by lia.
  destruct (i - length pre) as [|k] eqn:Hk; [|by destruct k].
  injection Hi as ->. rewrite (Hx m c Hd). split; [done|].
  rewrite Ht, !length_app. simpl. lia.
Qed.

(** C6. In a call of [run_commands] that returns, the result of a text
    command is the [output] string of its entry in the replies, stripped
    of surrounding white space (the string without the runs of white
    space characters, of the ASCII range or not, at its two ends), and
    the result of a structured command is its entry in the replies,
    unchanged. *)
Theorem run_commands_unwraps_text (st : State) (commands : list string)
    (rs : list pyval) (st' : State) (enable : pyval) :
  Eapi.run_commands fetch_url commands st = (inr rs, st') →
  Eapi.attrs st !! "_enable" = Some enable →
  let new := drop (length (Eapi.trace st)) (Eapi.trace st') in
  let responses := concat (payload enable <$> new) in
  concat (batch enable <$> new) = commands
  ∧ Forall (tagged enable) new
  ∧ length rs = length responses
  ∧ ∀ (i : nat) c, commands !! i = Some c →
      (is_text c = true →
         ∃ d s, responses !! i = Some (PDict d)
                ∧ d !! "output" = Some (PStr s)
                ∧ rs !! i = Some (PStr (PyStr.strip s))
                ∧ PyStr.trimmed s (PyStr.strip s))
      ∧ (is_json c = true → rs !! i = responses !! i).
Proof.
  intros Hrun He.
  unfold Eapi.run_commands, bind in Hrun.
  destruct (Eapi.collect _ _ _) as [[e|responses] st1] eqn:Hc; [done|].
  unfold lift in Hrun. injection Hrun as Hun <-.
  destruct (collect_order _ _ _ _ _ Hc He) as (new & Ht & Hcat & -> & Htag).
  rewrite Ht, drop_app_length. simpl.
  destruct (unwrap_loop_spec _ _ _ _ Hun) as (Hlen & _ & Hin).
  split; [done|]. split; [done|]. split; [done|].
  intros i c Hi. destruct (Hin i c Hi) as [Htext Hjson]. split; [|done].
  intros Hc'. destruct (Htext Hc') as (d & s & Hd & Hs & Hr).
  exists d, s. split; [done|]. split; [done|]. split; [done|].
  apply strip_trimmed.
Qed.

(** *** The injected command *)

Lemma init_enable_truthy module : truthy (Eapi.init_enable module) = true.
Proof.
  unfold Eapi.init_enable.
  destruct (truthy (from_option PStr PNone (auth_pass module))); [|done].
  simpl. apply negb_true_iff, bool_decide_eq_false.
  intros H. apply (f_equal (λ m : gmap string pyval, m !! "cmd")) in H.
  by rewrite lookup_insert_eq, lookup_empty in H.
Qed.

Lemma init_attrs module (dev : Device) :
  Eapi.attrs (Eapi.__init__ module dev) !! "_enable"
  = Some (Eapi.init_enable module)
  ∧ Eapi.attrs (Eapi.__init__ module dev) !! "_url"
    = Some (Eapi.init_url module)
  ∧ Eapi.attrs (Eapi.__init__ module dev) !! "_device_configs" = None.
Proof. unfold Eapi.__init__. simpl. by rewrite !lookup_insert. Qed.

(** C9, as the code has it.  On an adapter whose [_enable] is the one that
    [__init__] sets, with or without an enable credential, every request
    of [send_request] has the command [enable] ahead of the commands it
    was given, and a reply with one result per command of the request
    comes back without the first of them: one result per command given. *)
Theorem send_request_injects_enable (module : Params) (st : State)
    (commands : list string) (output : option Format) :
  Eapi.attrs st !! "_enable" = Some (Eapi.init_enable module) →
  is_Some (Eapi.attrs st !! "_url") →
  let run := Eapi.send_request fetch_url commands output st in
  ∃ req reply,
    Eapi.trace run.2 = Eapi.trace st ++ [(req, reply)]
    ∧ cmds (params (req_data req)) = "enable" :: commands
    ∧ ∀ response results,
        reply = Body response →
        response !! "result" = Some (PList results) →
        length results = length ("enable" :: commands) →
        ∃ response' placeholder results',
          run.1 = inr response'
          ∧ results = placeholder :: results'
          ∧ response' !! "result" = Some (PList results')
          ∧ length results' = length commands.
Proof.
  intros He [url Hu]. cbv zeta.
  rewrite (send_request_eq _ _ _ _ _ He Hu). cbn [fst snd].
  unfold fetched. cbn [Eapi.trace]. eexists _, _. split; [reflexivity|].
  unfold request_for. cbn [req_data params cmds Eapi._request_builder].
  rewrite init_enable_truthy. split; [done|].
  intros response results Hreply Hres Hlen. rewrite Hreply.
  unfold received. rewrite Hres, init_enable_truthy.
  destruct results as [|placeholder results']; [done|]. cbn [pop0].
  eexists _, placeholder, results'. split; [done|]. split; [done|].
  rewrite lookup_insert_eq. split; [done|]. simpl in Hlen. lia.
Qed.

End EapiFacts.

(** *** The statements on concrete devices *)

Lemma echo_answers : answers echo echo_ans.
Proof.
  intros dev req. eexists. split; [reflexivity|].
  split; [by apply lookup_singleton_ne|by apply lookup_singleton_eq].
Qed.

Lemma echo_text_output : text_output echo_ans echo_out.
Proof. intros c. eexists. split; [reflexivity|]. by apply lookup_singleton_eq. Qed.

(** The example of section 8: three requests, tagged text, structured and
    text, each behind the injected command. *)
Lemma example_three_batches :
  (λ entry, (format (params (req_data entry.1)), sent entry))
    <$> Eapi.trace (Eapi.run_commands echo example_commands
                      (Eapi.__init__ switch tt)).2
  = [ (Some Text, ["enable"; "show version"]);
      (Some Json, ["enable"; "show interfaces | json"]);
      (Some Text, ["enable"; "show version"]) ].
Proof. vm_compute. reflexivity. Qed.

(** [run_commands_batching] on the example of section 8, against [echo]. *)
Lemma run_commands_batching_witness :
  ∃ st' new,
    Eapi.run_commands echo example_commands (Eapi.__init__ switch tt)
    = (inr [PStr "show version";
            PDict {[ "command" := PStr "show interfaces | json" ]};
            PStr "show version"], st')
    ∧ Eapi.trace st' = new
    ∧ length new = 3
    ∧ concat (batch (PStr "enable") <$> new) = example_commands.
Proof.
  destruct (run_commands_batching echo (Eapi.__init__ switch tt) example_commands)
    as (_ & _ & Hsent & Hans).
  destruct (Hans echo_ans echo_out echo_answers echo_text_output)
    as (st' & Hrun & _); [by eexists|by eexists|].
  destruct (Hsent _ st' (PStr "enable") Hrun eq_refl)
    as (new & Ht & Hlen & Hcat & _).
  exists st', new. split; [exact Hrun|]. split; [exact Ht|].
  split; [exact Hlen|exact Hcat].
Defined.

(** [run_commands_device_error] on the same commands against [text_only]:
    the second request is rejected and no third one is sent. *)
Lemma run_commands_device_error_witness :
  (Eapi.run_commands text_only example_commands (Eapi.__init__ switch tt)).1
  = inl (FailJson {[ "msg" := PStr "invalid command"; "code" := PInt 1002 ]})
  ∧ length (Eapi.trace
      (Eapi.run_commands text_only example_commands (Eapi.__init__ switch tt)).2)
    = 2.
Proof.
  apply (run_commands_device_error text_only (Eapi.__init__ switch tt)
           example_commands 1
           (request_for (Eapi.__init__ switch tt) (PStr "enable")
              (PStr "http://sw1:80/command-api") ["show interfaces | json"]
              (Some Json))
           (Body rejection)).
  - vm_compute. reflexivity.
  - exists rejection, {[ "code" := PInt 1002; "message" := PStr "invalid command" ]}.
    split; [reflexivity|]. split; [vm_compute; reflexivity|].
    split; [vm_compute; reflexivity|]. split; [vm_compute; reflexivity|].
    left. vm_compute. reflexivity.
Defined.

(** [run_commands_unwraps_text] on the example against [wide]: the text
    comes back without the NO-BREAK SPACE, EM SPACE and SPACE in front of
    it and without the NEXT LINE, LF and IDEOGRAPHIC SPACE behind it. *)
Lemma run_commands_unwraps_text_witness :
  let run := Eapi.run_commands wide example_commands (Eapi.__init__ switch tt) in
  let responses := concat (payload (PStr "enable") <$> Eapi.trace run.2) in
  (∃ d s, responses !! 0 = Some (PDict d)
          ∧ d !! "output" = Some (PStr s)
          ∧ s = wide_out "show version"
          ∧ PyStr.strip s = "show version"
          ∧ run.1 = inr [PStr (PyStr.strip s);
                         PDict {[ "command" := PStr "show interfaces | json" ]};
                         PStr "show version"]
          ∧ PyStr.trimmed s (PyStr.strip s))
  ∧ responses !! 1 = Some (PDict {[ "command" := PStr "show interfaces | json" ]}).
Proof.
  intros run responses.
  assert (run = (inr [PStr "show version";
                      PDict {[ "command" := PStr "show interfaces | json" ]};
                      PStr "show version"], run.2)) as Hrun
    by (vm_compute; reflexivity).
  destruct (run_commands_unwraps_text wide (Eapi.__init__ switch tt)
              example_commands _ _ (PStr "enable") Hrun eq_refl)
    as (_ & _ & _ & H).
  split.
  - destruct (H 0 "show version" eq_refl) as [Htext _].
    destruct (Htext eq_refl) as (d & s & Hd & Hs & Hr & Htrim).
    assert (responses !! 0
            = Some (PDict {[ "output" := PStr (wide_out "show version") ]}))
      as Hfirst by (vm_compute; reflexivity).
    change (concat (payload (PStr "enable")
                      <$> drop (length (Eapi.trace (Eapi.__init__ switch tt)))
                               (Eapi.trace run.2)) !! 0
            = Some (PDict d)) with (responses !! 0 = Some (PDict d)) in Hd.
    rewrite Hfirst in Hd. injection Hd as <-.
    assert (s = wide_out "show version") as Heq.
    { vm_compute in Hs. injection Hs as <-. vm_compute. reflexivity. }
    exists {[ "output" := PStr (wide_out "show version") ]}, s.
    split; [exact Hfirst|]. split; [exact Hs|]. split; [exact Heq|].
    split; [rewrite Heq; vm_compute; reflexivity|].
    split; [|exact Htrim].
    injection Hr as Hr. rewrite <- Hr, Hrun. reflexivity.
  - destruct (H 1 "show interfaces | json" eq_refl) as [_ Hjson].
    symmetry. exact (Hjson eq_refl).
Defined.

(** [send_request_injects_enable] on an adapter with an enable password. *)
Lemma send_request_injects_enable_witness :
  ∃ response',
    (Eapi.send_request echo ["show version"] (Some Text)
       (Eapi.__init__ switch_with_secret tt)).1 = inr response'
    ∧ response' !! "result"
      = Some (PList [PDict {[ "output" := PStr "  show version " ]}]).
Proof.
  destruct (send_request_injects_enable echo switch_with_secret
              (Eapi.__init__ switch_with_secret tt) ["show version"] (Some Text))
    as (req & reply & Ht & Hc & H); [vm_compute; reflexivity|by eexists|].
  vm_compute in Ht. injection Ht as <- <-.
  destruct (H _ [echo_ans (Some Text) "enable"; echo_ans (Some Text) "show version"]
              eq_refl)
    as (response' & placeholder & results' & Hrun & Hres & Hlook & _);
    [vm_compute; reflexivity|reflexivity|].
  injection Hres as _ <-.
  exists response'. split; [exact Hrun|exact Hlook].
Defined.

(** C9, as the specification words it, fails: without an enable
    credential the command is injected all the same. *)
Lemma enable_injected_without_credential :
  ¬ (∀ module commands output,
       let run := Eapi.send_request echo commands output (Eapi.__init__ module tt) in
       (∃ entry, Eapi.trace run.2 = [entry] ∧ sent entry = "enable" :: commands)
       ↔ enable_credential module = true).
Proof.
  intros H. destruct (H switch ["show version"] (Some Text)) as [Hinj _].
  assert (enable_credential switch = true) as Hc; [|done].
  apply Hinj. eexists. split; reflexivity.
Qed.

(** ** The shell adapter *)

Section CliFacts.

Context {Shell : Type}
  (exec_command : Shell → string → (Z * string * string) * Shell)
  (from_json : string → option pyval).

Lemma run_loop_spec commands : ∀ check_rc responses (st : Cli.State Shell),
  (check_rc = true →
   Forall (λ r, r.1.1 = 0%Z) (transcript exec_command (Cli.shell st) commands)) →
  Cli.run_loop exec_command from_json commands check_rc responses st
  = (inr (responses
          ++ ((λ r, Cli.decode from_json r.1.2)
                <$> transcript exec_command (Cli.shell st) commands)),
     Cli.mkState (Cli._module st)
       (final_shell exec_command (Cli.shell st) commands) (Cli.connected st)).
Proof.
  induction commands as [|cmd commands IH]; intros check_rc responses st Hrc.
  - simpl. rewrite (right_id_L [] (++)). by destruct st.
  - cbn [Cli.run_loop transcript final_shell] in *.
    unfold bind at 1, Cli.exec at 1.
    destruct (exec_command (Cli.shell st) cmd) as [[[rc out] err] sh] eqn:Hex.
    cbn [fst snd] in *.
    assert (check_rc && negb (rc =? 0)%Z = false) as ->.
    { destruct check_rc; [|done]. specialize (Hrc eq_refl).
      apply Forall_cons_1 in Hrc as [Hrc _]. simpl in Hrc. by subst rc. }
    unfold bind at 1, ret at 1. rewrite IH.
    + cbn [Cli._module Cli.shell Cli.connected fmap list_fmap].
      by rewrite <- (assoc_L (++)).
    + intros Hc. specialize (Hrc Hc). by apply Forall_cons_1 in Hrc as [_ Hrc].
Qed.

Lemma transcript_length (sh : Shell) commands :
  length (transcript exec_command sh commands) = length commands.
Proof.
  revert sh. induction commands as [|cmd commands IH]; intros sh; [done|].
  simpl. by rewrite IH.
Qed.

(** C10. [Cli.run_commands] gives every output to [from_json], whatever
    the command: while no checked return code is non-zero, the call
    returns one result per command, the value that [from_json] made of the
    output when it accepted it, and the output stripped of surrounding
    white space (the output without the runs of white space characters,
    of the ASCII range or not, at its two ends) when it did not. *)
Theorem cli_run_commands_decodes (st : Cli.State Shell) (commands : list string)
    (check_rc : bool) :
  (check_rc = true →
   Forall (λ r, r.1.1 = 0%Z) (transcript exec_command (Cli.shell st) commands)) →
  ∃ rs st',
    Cli.run_commands exec_command from_json commands check_rc st = (inr rs, st')
    ∧ length rs = length commands
    ∧ ∀ (i : nat) cmd rc out err,
        commands !! i = Some cmd →
        transcript exec_command (Cli.shell st) commands !! i = Some (rc, out, err) →
        (∀ v, from_json out = Some v → rs !! i = Some v)
        ∧ (from_json out = None →
           rs !! i = Some (PStr (PyStr.strip out))
           ∧ PyStr.trimmed out (PyStr.strip out)).
Proof.
  intros Hrc. unfold Cli.run_commands. rewrite run_loop_spec by done.
  eexists _, _. split; [reflexivity|]. simpl.
  split; [by rewrite length_fmap, transcript_length|].
  intros i cmd rc out err _ Hi. rewrite list_lookup_fmap, Hi. simpl.
  unfold Cli.decode. split.
  - by intros v ->.
  - intros ->. split; [done|]. apply strip_trimmed.
Qed.

End CliFacts.

(** [cli_run_commands_decodes] against [wide_console]: the output of the
    command without marker is parsed, that of the command with the marker
    is not and comes back without the NO-BREAK SPACE, EM SPACE and SPACE
    in front of it and without the NEXT LINE, LF and IDEOGRAPHIC SPACE
    behind it. *)
Lemma cli_run_commands_decodes_witness :
  (Cli.run_commands wide_console json_object
     ["show version"; "show vlan | json"] true (Cli.mkState switch tt true)).1
  = inr [PDict ∅; PStr "Vlan1 is up"]
  ∧ PyStr.trimmed (wide_out "Vlan1 is up") "Vlan1 is up".
Proof.
  destruct (cli_run_commands_decodes wide_console json_object
              (Cli.mkState switch tt true) ["show version"; "show vlan | json"] true)
    as (rs & st' & Hrun & Hlen & H).
  { intros _. repeat constructor. }
  rewrite Hrun. simpl.
  destruct (H 0 "show version" 0%Z "{}" "" eq_refl eq_refl) as [H0 _].
  destruct (H 1 "show vlan | json" 0%Z (wide_out "Vlan1 is up") ""
              eq_refl eq_refl) as [_ H1].
  specialize (H0 (PDict ∅) eq_refl).
  destruct (H1 ltac:(vm_compute; reflexivity)) as [H1' Htrim].
  assert (PyStr.strip (wide_out "Vlan1 is up") = "Vlan1 is up") as Hstrip
    by (vm_compute; reflexivity).
  rewrite Hstrip in H1', Htrim. split; [|exact Htrim]. f_equal.
  destruct rs as [|r0 [|r1 [|r2 rs]]]; try done.
  injection H0 as ->. injection H1' as ->. reflexivity.
Defined.

(** ** Calls that never reach the device *)

Section Unreached.

Context {Device Shell : Type}
  (fetch_url : Device → Request → Reply * Device)
  (py_str : pyval → string)
  (exec_command : Shell → string → (Z * string * string) * Shell)
  (jsonify : pyval → string)
  (getenv : string → option string)
  (py_int : string → option Z).

Lemma eapi_load_config_unbound (st : Eapi.State Device) config commit replace now :
  Eapi.load_config fetch_url config commit replace now st
  = (inl (NameError "supports_sessions"), st).
Proof. reflexivity. Qed.

Lemma cli_load_config_unbound (st : Cli.State Shell) commands commit replace now :
  Cli.load_config exec_command jsonify getenv py_int commands commit replace now st
  = (inl (NameError "check_authorization"), st).
Proof. reflexivity. Qed.

(** C2 (the code falls short).  Whatever the device, the commands and the
    flags, [load_config] stops at its first bare name on either
    transport: it raises [NameError] and leaves the state as it was, so no
    session is entered, nothing is aborted and no [fail_json] carries the
    message of the device. *)
Theorem load_config_stops_at_bare_name (st : Eapi.State Device)
    (cst : Cli.State Shell) (commands : list string) (commit replace : bool)
    (now : Z) :
  Eapi.load_config fetch_url commands commit replace now st
  = (inl (NameError "supports_sessions"), st)
  ∧ Cli.load_config exec_command jsonify getenv py_int commands commit replace now cst
    = (inl (NameError "check_authorization"), cst).
Proof. split; [apply eapi_load_config_unbound|apply cli_load_config_unbound]. Qed.

(** C8 (the code falls short).  [get_config] makes no round trip and
    returns no text: on an adapter that [__init__] has just built,
    [Eapi.get_config] raises [AttributeError], as [__init__] binds
    [_device_config] and not [_device_configs]; [Cli.get_config] raises
    [NameError], as the module binds no [_DEVICE_CONFIGS].  Neither changes
    the state, so a second call does the same. *)
Theorem get_config_raises (module : Params) (dev : Device)
    (cst : Cli.State Shell) (flags : list string) :
  Eapi.get_config fetch_url py_str flags (Eapi.__init__ module dev)
  = (inl (AttributeError "_device_configs"), Eapi.__init__ module dev)
  ∧ Cli.get_config exec_command flags cst
    = (inl (NameError "_DEVICE_CONFIGS"), cst).
Proof.
  split; [|reflexivity].
  unfold Eapi.get_config, except_KeyError, bind, Eapi.getattr.
  destruct (init_attrs module dev) as (_ & _ & ->). reflexivity.
Qed.

End Unreached.

(** C3 (the code falls short).  A dry run on a device that has
    configuration sessions returns no diff: both transports raise
    [NameError] before the device is asked anything. *)
Theorem load_config_dry_run_raises :
  Eapi.load_config echo ["interface Eth1"; "description test"] false false
    1488326400 (Eapi.__init__ switch tt)
  = (inl (NameError "supports_sessions"), Eapi.__init__ switch tt)
  ∧ (∀ jsonify getenv py_int,
       Cli.load_config console jsonify getenv py_int
         ["interface Eth1"; "description test"] false false 1488326400
         (Cli.mkState switch tt true)
       = (inl (NameError "check_authorization"), Cli.mkState switch tt true)).
Proof. split; [reflexivity|intros; reflexivity]. Qed.

(** C4 (the code falls short).  On a device without configuration
    sessions [load_config] does not reach [configure]: both transports
    raise [NameError], no request and no command is sent, and nothing is
    returned. *)
Theorem load_config_fallback_raises :
  Eapi.load_config legacy ["interface Eth1"; "description test"] true false
    1488326400 (Eapi.__init__ switch tt)
  = (inl (NameError "supports_sessions"), Eapi.__init__ switch tt)
  ∧ Eapi.trace (Eapi.load_config legacy ["interface Eth1"; "description test"]
                  true false 1488326400 (Eapi.__init__ switch tt)).2 = []
  ∧ (∀ jsonify getenv py_int,
       Cli.load_config old_console jsonify getenv py_int
         ["interface Eth1"; "description test"] true false 1488326400
         (Cli.mkState switch tt true)
       = (inl (NameError "check_authorization"), Cli.mkState switch tt true)).
Proof. split; [reflexivity|]. split; [reflexivity|intros; reflexivity]. Qed.

(** ** Module parameters and the connection *)

Section LoadParams.

Implicit Types (params : gmap string pyval) (d : gmap string pyval).

Lemma load_step_lookup params item k :
  load_step params item !! k
  = if decide (k = item.1)
    then if copied params k item.2 then Some item.2 else params !! k
    else params !! k.
Proof.
  unfold load_step, copied. destruct (decide (k = item.1)) as [->|Hk].
  - destruct (bool_decide _); [|done]. cbn [andb].
    destruct (is_None (dict_get params item.1) && negb (is_None item.2)); [|done].
    apply lookup_insert_eq.
  - destruct (bool_decide _); [|done].
    destruct (is_None (dict_get params item.1) && negb (is_None item.2)); [|done].
    by apply lookup_insert_ne.
Qed.

Lemma foldl_load_step_lookup (items : list (string * pyval)) :
  NoDup items.*1 → ∀ params k,
  foldl load_step params items !! k
  = match (list_to_map items : gmap string pyval) !! k with
    | Some v => if copied params k v then Some v else params !! k
    | None => params !! k
    end.
Proof.
  induction items as [|[k' v'] items IH]; intros Hnd params k; [done|].
  apply NoDup_cons in Hnd as [Hk' Hnd].
  cbn [foldl list_to_map foldr fmap list_fmap fst snd uncurry] in *.
  rewrite (IH Hnd), load_step_lookup. cbn [fst snd].
  destruct (decide (k = k')) as [->|Hne].
  - rewrite lookup_insert_eq.
    rewrite (not_elem_of_list_to_map_1 items k') by done. done.
  - rewrite lookup_insert_ne by done.
    assert (∀ v, copied (load_step params (k', v')) k v = copied params k v)
      as Hc.
    { intros v. unfold copied, dict_get. rewrite load_step_lookup. cbn [fst snd].
      by destruct (decide (k = k')). }
    destruct (list_to_map items !! k); [by rewrite Hc|done].
Qed.

Lemma load_params_inr params d :
  or_dict (dict_get params "provider") = PDict d →
  load_params params = inr (foldl load_step params (map_to_list d))
  ∧ ∀ k, foldl load_step params (map_to_list d) !! k
         = match d !! k with
           | Some v => if copied params k v then Some v else params !! k
           | None => params !! k
           end.
Proof.
  intros Hp. unfold load_params. rewrite Hp. split; [done|]. intros k.
  rewrite foldl_load_step_lookup by apply NoDup_fst_map_to_list.
  by rewrite list_to_map_to_list.
Qed.

Lemma is_None_true v : is_None v = true ↔ v = PNone.
Proof. by destruct v. Qed.

Lemma copied_true params k v :
  copied params k v = true
  ↔ is_Some (eos_local_argument_spec !! k)
    ∧ dict_get params k = PNone ∧ v ≠ PNone.
Proof.
  unfold copied. rewrite !andb_true_iff, bool_decide_eq_true, negb_true_iff.
  rewrite is_None_true. split.
  - intros [[? ?] Hv]. repeat split; [done..|]. intros ->. done.
  - intros (? & ? & Hv). repeat split; [done..|]. by destruct v.
Qed.

(** X1. [load_params] fills a parameter from the provider exactly when the
    key is one of the argument spec, the module has no value for it and
    the provider has one: a value given to the module wins over the
    provider, a key outside the spec is never copied, and [None] in the
    provider copies nothing.  The order in which the provider is read
    does not matter. *)
Theorem load_params_merges params d :
  or_dict (dict_get params "provider") = PDict d →
  ∃ params',
    load_params params = inr params'
    ∧ (∀ k v, is_Some (eos_local_argument_spec !! k) →
              dict_get params k = PNone → d !! k = Some v → v ≠ PNone →
              params' !! k = Some v)
    ∧ (∀ k, dict_get params k ≠ PNone → params' !! k = params !! k)
    ∧ (∀ k, eos_local_argument_spec !! k = None → params' !! k = params !! k)
    ∧ (∀ k, d !! k = None ∨ d !! k = Some PNone → params' !! k = params !! k).
Proof.
  intros Hp. destruct (load_params_inr params d Hp) as [-> Hk].
  eexists. split; [done|]. repeat split.
  - intros k v Hspec Hnone Hd Hv. rewrite Hk, Hd.
    by rewrite (proj2 (copied_true params k v)).
  - intros k Hset. rewrite Hk. destruct (d !! k) as [v|]; [|done].
    destruct (copied params k v) eqn:Hc; [|done].
    apply copied_true in Hc as (_ & ? & _). done.
  - intros k Hspec. rewrite Hk. destruct (d !! k) as [v|]; [|done].
    destruct (copied params k v) eqn:Hc; [|done].
    apply copied_true in Hc as ([? Hs] & _). congruence.
  - intros k [Hd|Hd]; rewrite Hk, Hd; [done|].
    destruct (copied params k PNone) eqn:Hc; [|done].
    apply copied_true in Hc as (_ & _ & ?). done.
Qed.

Lemma load_params_provider params params' :
  load_params params = inr params' →
  ∃ d, or_dict (dict_get params "provider") = PDict d
       ∧ params' = foldl load_step params (map_to_list d).
Proof.
  unfold load_params, iteritems.
  destruct (or_dict (dict_get params "provider")); try done.
  intros [= <-]. eauto.
Qed.

(** X2. [load_params] is idempotent: a second call leaves the parameters
    as the first call made them. *)
Theorem load_params_idempotent params params' :
  load_params params = inr params' → load_params params' = inr params'.
Proof.
  intros Hload. destruct (load_params_provider _ _ Hload) as (d & Hp & ->).
  destruct (load_params_inr params d Hp) as [_ Hk].
  set (params' := foldl load_step params (map_to_list d)) in *.
  assert (dict_get params' "provider" = dict_get params "provider") as Hsame.
  { unfold dict_get. rewrite Hk. destruct (d !! "provider") as [v|] eqn:Hd; [|done].
    destruct (copied params "provider" v) eqn:Hc; [|done].
    apply copied_true in Hc as (_ & Hnone & _).
    unfold or_dict in Hp. rewrite Hnone in Hp. simpl in Hp.
    injection Hp as <-. by rewrite lookup_empty in Hd. }
  destruct (load_params_inr params' d) as [-> Hk']; [by rewrite Hsame|].
  f_equal. apply map_eq. intros k. rewrite Hk'.
  destruct (d !! k) as [v|] eqn:Hd; [|done].
  destruct (copied params' k v) eqn:Hc'; [|done].
  apply copied_true in Hc' as (Hspec & Hnone & Hv).
  unfold dict_get in Hnone. rewrite Hk, Hd in Hnone. rewrite Hk, Hd.
  destruct (copied params k v) eqn:Hc; [done|].
  exfalso. apply not_true_iff_false in Hc. apply Hc, copied_true.
  done.
Qed.

End LoadParams.

Lemma load_params_merges_witness :
  ∃ params',
    load_params play_params = inr params'
    ∧ params' !! "host" = Some (PStr "sw1")
    ∧ params' !! "username" = Some (PStr "admin")
    ∧ params' !! "vendor" = None
    ∧ params' !! "port" = Some PNone.
Proof.
  destruct (load_params_merges play_params
              {[ "host" := PStr "sw1"; "username" := PStr "guest";
                 "password" := PStr "secret"; "port" := PNone;
                 "vendor" := PStr "arista" ]})
    as (params' & Hload & Hfill & Hwins & Hspec & Hnone);
    [vm_compute; reflexivity|].
  exists params'. split; [exact Hload|]. split.
  { apply Hfill; [by eexists|reflexivity|reflexivity|discriminate]. }
  split.
  { rewrite Hwins; [reflexivity|discriminate]. }
  split.
  { rewrite Hspec; reflexivity. }
  rewrite Hnone; [reflexivity|right; reflexivity].
Defined.

Lemma load_params_idempotent_witness :
  ∃ params', load_params play_params = inr params'
             ∧ load_params params' = inr params'.
Proof.
  eexists. split; [reflexivity|].
  apply (load_params_idempotent play_params). reflexivity.
Defined.

Section CheckArgs.

Implicit Types (params d : gmap string pyval).

Lemma check_keys_given params d keys :
  Forall (λ k, is_Some (params !! k)) keys →
  Forall (λ k, given params d k = true) keys →
  check_keys params (PDict d) keys = inr tt.
Proof.
  induction keys as [|key keys IH]; [done|].
  intros [[v Hv] Hin]%Forall_cons_1 [Hg Hgs]%Forall_cons_1.
  simpl. unfold given, dict_get in Hg. rewrite Hv in *. simpl in Hg.
  destruct (truthy v); [by apply IH|]. simpl in Hg. unfold dict_get.
  rewrite Hg. by apply IH.
Qed.

Lemma check_keys_missing params d pre key post :
  Forall (λ k, is_Some (params !! k)) (pre ++ key :: post) →
  Forall (λ k, given params d k = true) pre →
  given params d key = false →
  check_keys params (PDict d) (pre ++ key :: post)
  = inl (FailJson {[ "msg" := PStr ("missing required argument " +:+ key) ]}).
Proof.
  induction pre as [|k pre IH].
  - intros [[v Hv] _]%Forall_cons_1 _ Hg. simpl.
    unfold given, dict_get in Hg. rewrite Hv in *. simpl in Hg.
    apply orb_false_iff in Hg as [-> Hg]. unfold dict_get. by rewrite Hg.
  - intros [[v Hv] Hin]%Forall_cons_1 [Hg Hgs]%Forall_cons_1 Hkey. simpl.
    unfold given, dict_get in Hg. rewrite Hv in *. simpl in Hg.
    destruct (truthy v); [by apply IH|]. simpl in Hg. unfold dict_get.
    rewrite Hg. by apply IH.
Qed.

Lemma check_keys_inr params d keys :
  Forall (λ k, is_Some (params !! k)) keys →
  check_keys params (PDict d) keys = inr tt →
  Forall (λ k, given params d k = true) keys.
Proof.
  induction keys as [|key keys IH]; [constructor|].
  intros [[v Hv] Hin]%Forall_cons_1. simpl. rewrite Hv. intros H.
  assert (given params d key = true
          ∧ check_keys params (PDict d) keys = inr tt) as [Hg Hrest].
  { unfold given. unfold dict_get at 1. rewrite Hv.
    change (default PNone (Some v)) with v.
    destruct (truthy v); [by split|]. cbn [orb]. unfold method_get in H.
    destruct (truthy (dict_get d key)); [by split|done]. }
  constructor; [done|by apply IH].
Qed.

(** X3. [check_args] accepts the parameters exactly when [host],
    [username] and [password] each have a value that counts as true in
    the module or in the provider; otherwise it ends in [fail_json] with
    the name of the first of the three, in that order, that has none. *)
Theorem check_args_first_missing params p d :
  params !! "provider" = Some p →
  or_dict p = PDict d →
  Forall (λ k, is_Some (params !! k)) ["host"; "username"; "password"] →
  (check_args params = inr tt
   ↔ Forall (λ k, given params d k = true) ["host"; "username"; "password"])
  ∧ ∀ pre key post,
      ["host"; "username"; "password"] = pre ++ key :: post →
      Forall (λ k, given params d k = true) pre →
      given params d key = false →
      check_args params
      = inl (FailJson {[ "msg" := PStr ("missing required argument " +:+ key) ]}).
Proof.
  intros Hp Hd Hin. unfold check_args. cbn [getitem]. rewrite Hp, Hd. split.
  - split; [by apply check_keys_inr|by apply check_keys_given].
  - intros pre key post Heq Hpre Hkey. rewrite Heq in *.
    by apply check_keys_missing.
Qed.

End CheckArgs.

Lemma check_args_first_missing_witness :
  check_args (<["username" := PStr ""]> play_params) = inr tt
  ∧ check_args (<["provider" := PNone]> play_params)
    = inl (FailJson {[ "msg" := PStr "missing required argument host" ]}).
Proof.
  split.
  - destruct (check_args_first_missing (<["username" := PStr ""]> play_params)
                (PDict {[ "host" := PStr "sw1"; "username" := PStr "guest";
                          "password" := PStr "secret"; "port" := PNone;
                          "vendor" := PStr "arista" ]})
                {[ "host" := PStr "sw1"; "username" := PStr "guest";
                   "password" := PStr "secret"; "port" := PNone;
                   "vendor" := PStr "arista" ]})
      as [[_ Hok] _]; [vm_compute; reflexivity|vm_compute; reflexivity| |].
    + repeat constructor; by eexists.
    + apply Hok. repeat constructor.
  - destruct (check_args_first_missing (<["provider" := PNone]> play_params)
                PNone ∅)
      as [_ Hmiss]; [vm_compute; reflexivity|vm_compute; reflexivity| |].
    + repeat constructor; by eexists.
    + apply (Hmiss [] "host" ["username"; "password"]);
        [reflexivity|constructor|vm_compute; reflexivity].
Defined.

Section ConnectionFacts.

Context {Conn World : Type}
  (new_Eapi new_Cli :
     gmap string pyval → World → (exn + Conn) * (gmap string pyval * World)).

(** X4. The connection is a singleton: once [get_connection] has returned
    a connection, every later call returns that same connection, whatever
    the parameters of the module (its transport too) and the world have
    become, and it neither builds an adapter nor reads the provider
    again. *)
Theorem get_connection_singleton (p p1 : Process Conn World) (conn : Conn) :
  get_connection new_Eapi new_Cli p = (inr conn, p1) →
  ∀ params' world',
    get_connection new_Eapi new_Cli
      (mkProcess params' (_DEVICE_CONNECTION p1) world')
    = (inr conn, mkProcess params' (_DEVICE_CONNECTION p1) world').
Proof.
  unfold get_connection at 1.
  destruct (_DEVICE_CONNECTION p) as [c|] eqn:Hc.
  { intros [= <- <-] params' world'. unfold get_connection. simpl. by rewrite Hc. }
  destruct (load_params (module_params p)) as [|params]; [done|].
  destruct (getitem (PDict params) "transport") as [|transport]; [done|].
  destruct ((if is_eapi transport then new_Eapi else new_Cli) params (world p))
    as [[e|c] [params1 w]]; [done|].
  by intros [= <- <-] params' world'.
Qed.

End ConnectionFacts.

Lemma get_connection_singleton_witness :
  get_connection count_Eapi count_Cli (mkProcess play_params None 0)
  = (inr "Eapi",
     mkProcess (<["password" := PStr "secret"]>
                  (<["host" := PStr "sw1"]> play_params))
       (Some "Eapi") 1)
  ∧ get_connection count_Eapi count_Cli
      (mkProcess (<["transport" := PStr "cli"]> play_params) (Some "Eapi") 1)
    = (inr "Eapi",
       mkProcess (<["transport" := PStr "cli"]> play_params) (Some "Eapi") 1).
Proof.
  assert (get_connection count_Eapi count_Cli (mkProcess play_params None 0)
          = (inr "Eapi",
             mkProcess (<["password" := PStr "secret"]>
                          (<["host" := PStr "sw1"]> play_params))
               (Some "Eapi") 1)) as Hfirst by (vm_compute; reflexivity).
  split; [exact Hfirst|].
  exact (get_connection_singleton count_Eapi count_Cli _ _ _ Hfirst
           (<["transport" := PStr "cli"]> play_params) 1).
Defined.

(** ** Failures of the RPC transport *)

Section EapiFailures.

Context {Device : Type} (fetch_url : Device → Request → Reply * Device).

Local Abbreviation State := (Eapi.State Device).

Lemma verdict_app {A} enable (r : exn + A) new1 new2 :
  accepted enable new1 → verdict enable r new2 → verdict enable r (new1 ++ new2).
Proof.
  intros H1. destruct r as [e|a]; simpl.
  - intros [H2|(pre & x & -> & Hpre & Hx)].
    + left. by apply Forall_app.
    + right. exists (new1 ++ pre), x. rewrite (assoc_L (++)).
      split; [done|]. split; [by apply Forall_app|done].
  - intros H2. by apply Forall_app.
Qed.

Lemma _send_verdict commands output (st : State) r st' enable :
  Eapi._send fetch_url commands output st = (r, st') →
  Eapi.attrs st !! "_enable" = Some enable →
  Eapi.attrs st' = Eapi.attrs st
  ∧ ∃ new, Eapi.trace st' = Eapi.trace st ++ new ∧ verdict enable r new.
Proof.
  intros Hs He.
  destruct (_send_cases fetch_url commands output st)
    as [[e He']|(enable' & url & He' & Hu & Hs')].
  - rewrite He' in Hs. injection Hs as <- <-. split; [done|]. exists [].
    rewrite (right_id_L [] (++)). split; [done|]. left. constructor.
  - assert (enable' = enable) as -> by congruence.
    simpl in Hs'. rewrite Hs' in Hs. injection Hs as <- <-.
    split; [done|]. eexists. split; [reflexivity|].
    destruct (answered enable _) as [e|v] eqn:Ha; simpl.
    + right. eexists [], _. split; [reflexivity|]. split; [constructor|done].
    + constructor; [|constructor]. simpl. eauto.
Qed.

Lemma batch_loop_verdict items :
  ∀ output queue responses (st : State) r st' enable,
  Eapi.batch_loop fetch_url items output queue responses st = (r, st') →
  Eapi.attrs st !! "_enable" = Some enable →
  Eapi.attrs st' = Eapi.attrs st
  ∧ ∃ new, Eapi.trace st' = Eapi.trace st ++ new ∧ verdict enable r new.
Proof.
  induction items as [|item items IH];
    intros output queue responses st r st' enable.
  - intros [= <- <-] He. split; [done|]. exists [].
    rewrite (right_id_L [] (++)). split; [done|]. constructor.
  - cbn [Eapi.batch_loop]. unfold bind at 1.
    destruct (Eapi.format_change output item).
    + unfold bind at 1.
      destruct (Eapi._send fetch_url queue output st) as [[e|v] st1] eqn:Hsend;
        intros Hloop He;
        destruct (_send_verdict _ _ _ _ _ _ Hsend He) as (Ha1 & new1 & Ht1 & Hv1).
      { injection Hloop as <- <-. split; [done|]. by exists new1. }
      unfold bind at 1, lift at 1 in Hloop.
      destruct (extend responses v) as [e|responses'].
      { injection Hloop as <- <-. split; [done|]. exists new1.
        split; [done|]. by left. }
      unfold ret at 1 in Hloop. rewrite <- Ha1 in He.
      destruct (IH _ _ _ _ _ _ _ Hloop He) as (Ha2 & new2 & Ht2 & Hv2).
      split; [congruence|]. exists (new1 ++ new2).
      split; [by rewrite Ht2, Ht1, (assoc_L (++))|]. by apply verdict_app.
    + unfold ret at 1. intros Hloop He. by apply (IH _ _ _ _ _ _ _ Hloop He).
Qed.

Lemma run_commands_verdict commands (st : State) r st' enable :
  Eapi.run_commands fetch_url commands st = (r, st') →
  Eapi.attrs st !! "_enable" = Some enable →
  ∃ new, Eapi.trace st' = Eapi.trace st ++ new ∧ verdict enable r new.
Proof.
  unfold Eapi.run_commands, Eapi.collect. unfold bind at 1 2. intros Hrun He.
  destruct (Eapi.batch_loop _ _ _ _ _ _) as [[e|[[o q] rs]] st1] eqn:Hloop;
    destruct (batch_loop_verdict _ _ _ _ _ _ _ _ Hloop He)
      as (Ha1 & new1 & Ht1 & Hv1).
  { injection Hrun as <- <-. by exists new1. }
  destruct q as [|c q].
  { unfold ret, lift in Hrun. injection Hrun as <- <-. exists new1.
    split; [done|]. destruct (Eapi.unwrap_loop _ _ _); simpl; auto. }
  unfold bind at 1 in Hrun. rewrite <- Ha1 in He.
  destruct (Eapi._send _ _ _ _) as [[e|v] st2] eqn:Hsend;
    destruct (_send_verdict _ _ _ _ _ _ Hsend He) as (Ha2 & new2 & Ht2 & Hv2).
  { injection Hrun as <- <-. exists (new1 ++ new2).
    split; [by rewrite Ht2, Ht1, (assoc_L (++))|]. by apply verdict_app. }
  unfold lift in Hrun.
  assert (accepted enable (new1 ++ new2)) as Hacc by by apply Forall_app.
  destruct (extend rs v) as [e|responses]; injection Hrun as <- <-;
    exists (new1 ++ new2); (split; [by rewrite Ht2, Ht1, (assoc_L (++))|]).
  { by left. }
  destruct (Eapi.unwrap_loop _ _ _); simpl; auto.
Qed.

(** The first reply that [_send] raises for ends the call: the call
    raises the same, and no further request is sent. *)
Lemma run_commands_first_failure (st : State) commands enable i req reply e :
  let run := Eapi.run_commands fetch_url commands st in
  Eapi.attrs st !! "_enable" = Some enable →
  Eapi.trace run.2 !! (length (Eapi.trace st) + i)%nat = Some (req, reply) →
  answered enable reply = inl e →
  run.1 = inl e
  ∧ length (Eapi.trace run.2) = (length (Eapi.trace st) + S i)%nat.
Proof.
  intros run He. destruct run as [r st'] eqn:Hrun. subst run. simpl.
  destruct (run_commands_verdict _ _ _ _ _ Hrun He) as (new & Ht & Hv).
  rewrite (trace_lookup_new _ _ _ _ Ht). intros Hi Ha.
  assert (∀ l, accepted enable l → l !! i = Some (req, reply) → False) as Hno.
  { intros l Hl Hli. destruct (Forall_lookup_1 _ _ _ _ Hl Hli) as [v Hv'].
    simpl in Hv'. congruence. }
  destruct r as [e'|rs]; simpl in Hv; [|by destruct (Hno new)].
  destruct Hv as [?|(pre & x & -> & Hpre & Hx)]; [by destruct (Hno new)|].
  destruct (decide (i < length pre)) as [Hlt|Hge].
  { rewrite lookup_app_l in Hi by done. by destruct (Hno pre). }
  rewrite lookup_app_r in Hi by lia.
  destruct (i - length pre) as [|k] eqn:Hk; [|by destruct k].
  injection Hi as ->. simpl in Hx. split; [congruence|].
  rewrite Ht, !length_app. simpl. lia.
Qed.

End EapiFailures.

Section EapiFailureCases.

Context {Device : Type} (fetch_url : Device → Request → Reply * Device).

Local Abbreviation State := (Eapi.State Device).

(** X5. When [fetch_url] reports a status other than 200 for a request of
    [run_commands], the call ends in [fail_json] with the headers that
    [fetch_url] gave, returns no results and sends no further request. *)
Theorem run_commands_http_error (st : State) (commands : list string)
    (enable : pyval) (i : nat) (req : Request) (headers : gmap string pyval) :
  let run := Eapi.run_commands fetch_url commands st in
  Eapi.attrs st !! "_enable" = Some enable →
  Eapi.trace run.2 !! (length (Eapi.trace st) + i)%nat
  = Some (req, HttpError headers) →
  run.1 = inl (FailJson headers)
  ∧ length (Eapi.trace run.2) = (length (Eapi.trace st) + S i)%nat.
Proof.
  intros run He Hi.
  by apply (run_commands_first_failure fetch_url st commands enable i req
              (HttpError headers)).
Qed.

(** X6. When the body of a reply is not JSON, [run_commands] ends in
    [fail_json] with the message [unable to load response from device]
    and the body, returns no results and sends no further request. *)
Theorem run_commands_unparsable_body (st : State) (commands : list string)
    (enable : pyval) (i : nat) (req : Request) (data : string) :
  let run := Eapi.run_commands fetch_url commands st in
  Eapi.attrs st !! "_enable" = Some enable →
  Eapi.trace run.2 !! (length (Eapi.trace st) + i)%nat
  = Some (req, Unparsable data) →
  run.1 = inl (FailJson {[ "msg" := PStr "unable to load response from device";
                           "data" := PStr data ]})
  ∧ length (Eapi.trace run.2) = (length (Eapi.trace st) + S i)%nat.
Proof.
  intros run He Hi.
  by apply (run_commands_first_failure fetch_url st commands enable i req
              (Unparsable data)).
Qed.

(** X7. A reply that has neither [error] nor [result] makes
    [run_commands] raise [KeyError] for [result]; no further request is
    sent. *)
Theorem run_commands_reply_without_result (st : State)
    (commands : list string) (enable : pyval) (i : nat) (req : Request)
    (response : gmap string pyval) :
  let run := Eapi.run_commands fetch_url commands st in
  Eapi.attrs st !! "_enable" = Some enable →
  Eapi.trace run.2 !! (length (Eapi.trace st) + i)%nat
  = Some (req, Body response) →
  response !! "error" = None →
  response !! "result" = None →
  run.1 = inl (KeyError "result")
  ∧ length (Eapi.trace run.2) = (length (Eapi.trace st) + S i)%nat.
Proof.
  intros run He Hi Herr Hres.
  apply (run_commands_first_failure fetch_url st commands enable i req
           (Body response)); [done..|].
  unfold answered, received, judged. rewrite Hres, Herr. simpl. by rewrite Hres.
Qed.

(** X8. With the command [enable] injected, a reply whose [result] is an
    empty list makes [run_commands] raise [IndexError], as there is no
    placeholder to remove; no further request is sent. *)
Theorem run_commands_empty_result (st : State) (commands : list string)
    (enable : pyval) (i : nat) (req : Request)
    (response : gmap string pyval) :
  let run := Eapi.run_commands fetch_url commands st in
  Eapi.attrs st !! "_enable" = Some enable →
  truthy enable = true →
  Eapi.trace run.2 !! (length (Eapi.trace st) + i)%nat
  = Some (req, Body response) →
  response !! "result" = Some (PList []) →
  run.1 = inl IndexError
  ∧ length (Eapi.trace run.2) = (length (Eapi.trace st) + S i)%nat.
Proof.
  intros run He Ht Hi Hres.
  apply (run_commands_first_failure fetch_url st commands enable i req
           (Body response)); [done..|].
  unfold answered, received. by rewrite Hres, Ht.
Qed.

Lemma unwrap_error_None entry :
  unwrap_error entry = None →
  ∃ d s, entry = Some (PDict d) ∧ d !! "output" = Some (PStr s).
Proof.
  destruct entry as [r|]; [|done]. simpl.
  destruct (getitem r "output") as [|out] eqn:Ho; [done|].
  destruct (strip_method out) as [|x] eqn:Hx; [done|]. intros _.
  apply getitem_inr in Ho as (d & -> & Hd).
  apply strip_method_inr in Hx as (s & -> & _). eauto.
Qed.

Lemma unwrap_loop_first_bad commands :
  ∀ (index : nat) responses (i : nat) c e,
  commands !! i = Some c → is_text c = true →
  (∀ (j : nat) c', (j < i)%nat → commands !! j = Some c' → is_text c' = true →
     unwrap_error (responses !! (index + j)%nat) = None) →
  unwrap_error (responses !! (index + i)%nat) = Some e →
  Eapi.unwrap_loop index commands responses = inl e.
Proof.
  induction commands as [|item commands IH];
    intros index responses i c e Hi Hc Hgood Hbad; [done|].
  cbn [Eapi.unwrap_loop]. destruct i as [|i].
  - injection Hi as ->. rewrite Hc. rewrite Nat.add_0_r in Hbad.
    unfold unwrap_error in Hbad.
    destruct (responses !! index) as [r|]; [|congruence].
    destruct (getitem r "output") as [|out]; [congruence|].
    destruct (strip_method out); [congruence|done].
  - simpl in Hi.
    assert (Eapi.unwrap_loop (S index) commands responses = inl e) as Hrest.
    { apply (IH (S index) responses i c e Hi Hc).
      - intros j c' Hj Hcj Htj.
        replace (S index + j)%nat with (index + S j)%nat by lia.
        apply (Hgood (S j) c'); [lia|done..].
      - by replace (S index + i)%nat with (index + S i)%nat by lia. }
    destruct (is_text item) eqn:Htext; [|done].
    pose proof (Hgood 0 item ltac:(lia) eq_refl Htext) as H0.
    rewrite Nat.add_0_r in H0.
    destruct (unwrap_error_None _ H0) as (d & s & Hr & Hd).
    rewrite Hr. simpl. rewrite Hd. simpl.
    apply (IH (S index) _ i c e Hi Hc).
    + intros j c' Hj Hcj Htj. rewrite list_lookup_insert_ne by lia.
      replace (S index + j)%nat with (index + S j)%nat by lia.
      apply (Hgood (S j) c'); [lia|done..].
    + rewrite list_lookup_insert_ne by lia.
      by replace (S index + i)%nat with (index + S i)%nat by lia.
Qed.

(** X9. When the entry that the replies hold for a text command is
    missing or is not of the shape [{output: string}], [run_commands]
    raises instead of returning: [IndexError] for a missing entry,
    [KeyError] for a dictionary without [output], [TypeError] for an
    entry that is no dictionary, [AttributeError] for an [output] that is
    no string.  The first such command decides. *)
Theorem run_commands_malformed_text_entry (st st' : State)
    (commands : list string) (responses : list pyval) (i : nat) (c : string)
    (e : exn) :
  Eapi.collect fetch_url commands st = (inr responses, st') →
  commands !! i = Some c → is_text c = true →
  (∀ (j : nat) c', (j < i)%nat → commands !! j = Some c' → is_text c' = true →
     unwrap_error (responses !! j) = None) →
  unwrap_error (responses !! i) = Some e →
  Eapi.run_commands fetch_url commands st = (inl e, st').
Proof.
  intros Hcollect Hi Hc Hgood Hbad. unfold Eapi.run_commands, bind.
  rewrite Hcollect. unfold lift. f_equal.
  by apply (unwrap_loop_first_bad commands 0 responses i c e).
Qed.

End EapiFailureCases.

Lemma run_commands_http_error_witness :
  (Eapi.run_commands down example_commands (Eapi.__init__ switch tt)).1
  = inl (FailJson unreachable)
  ∧ length (Eapi.trace (Eapi.run_commands down example_commands
                          (Eapi.__init__ switch tt)).2) = 1.
Proof.
  apply (run_commands_http_error down (Eapi.__init__ switch tt)
           example_commands (PStr "enable") 0
           (request_for (Eapi.__init__ switch tt) (PStr "enable")
              (PStr "http://sw1:80/command-api") ["show version"] (Some Text))).
  - reflexivity.
  - vm_compute. reflexivity.
Defined.

Lemma run_commands_unparsable_body_witness :
  (Eapi.run_commands garbled example_commands (Eapi.__init__ switch tt)).1
  = inl (FailJson {[ "msg" := PStr "unable to load response from device";
                     "data" := PStr "<html>Bad Gateway</html>" ]})
  ∧ length (Eapi.trace (Eapi.run_commands garbled example_commands
                          (Eapi.__init__ switch tt)).2) = 1.
Proof.
  apply (run_commands_unparsable_body garbled (Eapi.__init__ switch tt)
           example_commands (PStr "enable") 0
           (request_for (Eapi.__init__ switch tt) (PStr "enable")
              (PStr "http://sw1:80/command-api") ["show version"] (Some Text))).
  - reflexivity.
  - vm_compute. reflexivity.
Defined.

Lemma run_commands_reply_without_result_witness :
  (Eapi.run_commands hollow example_commands (Eapi.__init__ switch tt)).1
  = inl (KeyError "result")
  ∧ length (Eapi.trace (Eapi.run_commands hollow example_commands
                          (Eapi.__init__ switch tt)).2) = 1.
Proof.
  apply (run_commands_reply_without_result hollow (Eapi.__init__ switch tt)
           example_commands (PStr "enable") 0
           (request_for (Eapi.__init__ switch tt) (PStr "enable")
              (PStr "http://sw1:80/command-api") ["show version"] (Some Text))
           {[ "jsonrpc" := PStr "2.0" ]}).
  - reflexivity.
  - vm_compute. reflexivity.
  - reflexivity.
  - reflexivity.
Defined.

Lemma run_commands_empty_result_witness :
  (Eapi.run_commands empty_handed example_commands (Eapi.__init__ switch tt)).1
  = inl IndexError
  ∧ length (Eapi.trace (Eapi.run_commands empty_handed example_commands
                          (Eapi.__init__ switch tt)).2) = 1.
Proof.
  apply (run_commands_empty_result empty_handed (Eapi.__init__ switch tt)
           example_commands (PStr "enable") 0
           (request_for (Eapi.__init__ switch tt) (PStr "enable")
              (PStr "http://sw1:80/command-api") ["show version"] (Some Text))
           {[ "result" := PList [] ]}).
  - reflexivity.
  - reflexivity.
  - vm_compute. reflexivity.
  - reflexivity.
Defined.

Lemma run_commands_malformed_text_entry_witness :
  (Eapi.run_commands mute ["show version"] (Eapi.__init__ switch tt)).1
  = inl IndexError.
Proof.
  rewrite (run_commands_malformed_text_entry mute (Eapi.__init__ switch tt)
             (Eapi.collect mute ["show version"] (Eapi.__init__ switch tt)).2
             ["show version"] [] 0 "show version" IndexError).
  - reflexivity.
  - vm_compute. reflexivity.
  - reflexivity.
  - reflexivity.
  - intros j c' Hj. lia.
  - reflexivity.
Defined.

(** ** Session support, attributes and [configure] *)

Section EapiSessions.

Context {Device : Type} (fetch_url : Device → Request → Reply * Device).

Local Abbreviation State := (Eapi.State Device).

Lemma send_request_attrs commands output (st : State) :
  Eapi.attrs (Eapi.send_request fetch_url commands output st).2 = Eapi.attrs st.
Proof.
  destruct (Eapi.attrs st !! "_enable") as [enable|] eqn:He.
  - destruct (Eapi.attrs st !! "_url") as [url|] eqn:Hu.
    + by rewrite (send_request_eq fetch_url _ _ _ _ _ He Hu).
    + unfold Eapi.send_request, bind, Eapi.getattr. by rewrite He, Hu.
  - unfold Eapi.send_request, bind, Eapi.getattr. by rewrite He.
Qed.

Lemma send_request_inr commands output (st : State) response st' :
  Eapi.send_request fetch_url commands output st = (inr response, st') →
  ∃ enable url,
    Eapi.attrs st !! "_enable" = Some enable
    ∧ Eapi.attrs st !! "_url" = Some url
    ∧ st' = fetched fetch_url st (request_for st enable url commands output).
Proof.
  destruct (Eapi.attrs st !! "_enable") as [enable|] eqn:He.
  - destruct (Eapi.attrs st !! "_url") as [url|] eqn:Hu.
    + rewrite (send_request_eq fetch_url _ _ _ _ _ He Hu). intros [= _ <-].
      by exists enable, url.
    + unfold Eapi.send_request, bind, Eapi.getattr. by rewrite He, Hu.
  - unfold Eapi.send_request, bind, Eapi.getattr. by rewrite He.
Qed.

(** X10. [supports_sessions] keeps a positive answer: once a call has
    returned a value that counts as true, the next call returns the same
    value and sends nothing. *)
Theorem supports_sessions_positive_cached (st st1 : State) (v : pyval) :
  Eapi.supports_sessions fetch_url st = (inr v, st1) →
  truthy v = true →
  Eapi.supports_sessions fetch_url st1 = (inr v, st1).
Proof.
  unfold Eapi.supports_sessions at 1. unfold bind at 1, Eapi.getattr at 1.
  destruct (Eapi.attrs st !! "_session_support") as [s|] eqn:Hs; [|done].
  destruct (truthy s) eqn:Hts.
  - intros [= <- <-] _. unfold Eapi.supports_sessions, bind, Eapi.getattr.
    by rewrite Hs, Hts.
  - unfold bind at 1.
    destruct (Eapi.send_request _ _ _ _) as [[e|response] st2]; [done|].
    unfold bind, Eapi.setattr, ret. intros [= <- <-] Hv.
    unfold Eapi.supports_sessions, bind, Eapi.getattr. simpl.
    by rewrite lookup_insert_eq, Hv.
Qed.

(** X11. [supports_sessions] does not keep a negative answer: after a call
    that returned a value that counts as false, the next call asks the
    device again, with one request for [show configuration sessions]. *)
Theorem supports_sessions_negative_asked_again (st st1 : State) (v : pyval) :
  Eapi.supports_sessions fetch_url st = (inr v, st1) →
  truthy v = false →
  ∃ enable req reply,
    Eapi.attrs st !! "_enable" = Some enable
    ∧ Eapi.trace (Eapi.supports_sessions fetch_url st1).2
      = Eapi.trace st1 ++ [(req, reply)]
    ∧ batch enable (req, reply) = ["show configuration sessions"].
Proof.
  unfold Eapi.supports_sessions at 1. unfold bind at 1, Eapi.getattr at 1.
  destruct (Eapi.attrs st !! "_session_support") as [s|] eqn:Hs; [|done].
  destruct (truthy s) eqn:Hts; [intros [= <- <-]; congruence|].
  unfold bind at 1.
  destruct (Eapi.send_request _ _ _ _) as [[e|response] st2] eqn:Hsend; [done|].
  destruct (send_request_inr _ _ _ _ _ Hsend) as (enable & url & He & Hu & ->).
  unfold bind, Eapi.setattr, ret. intros [= <- <-] Hv.
  set (v := PBool _) in *. set (st1 := Eapi.mkState _ _ _ _).
  assert (Eapi.attrs st1 !! "_session_support" = Some v) as Hs1
    by apply lookup_insert_eq.
  assert (Eapi.attrs st1 !! "_enable" = Some enable) as He1
    by (simpl; by rewrite lookup_insert_ne).
  assert (Eapi.attrs st1 !! "_url" = Some url) as Hu1
    by (simpl; by rewrite lookup_insert_ne).
  exists enable. eexists _, _. split; [done|].
  unfold Eapi.supports_sessions, bind. unfold Eapi.getattr at 1.
  rewrite Hs1, Hv.
  rewrite (send_request_eq fetch_url _ _ _ _ _ He1 Hu1).
  split.
  - destruct (received enable _); reflexivity.
  - unfold batch, sent, request_for. simpl. by destruct (truthy enable).
Qed.

Context (py_str : pyval → string).

Lemma get_config_attrs flags (st : State) k :
  k ≠ "_device_configs" →
  Eapi.attrs (Eapi.get_config fetch_url py_str flags st).2 !! k
  = Eapi.attrs st !! k.
Proof.
  intros Hk. unfold Eapi.get_config, except_KeyError.
  set (cmd := PyStr.strip _).
  unfold bind at 1, Eapi.getattr at 1.
  destruct (Eapi.attrs st !! "_device_configs") as [cache|] eqn:Hcache; [|done].
  unfold lift at 1. destruct (getitem cache cmd) as [[]|]; try done.
  unfold bind at 1.
  pose proof (send_request_attrs [cmd] (Some Text) st) as Hattrs.
  destruct (Eapi.send_request _ _ _ _) as [[e|out] st2]; simpl in Hattrs;
    [simpl; by rewrite Hattrs|].
  unfold bind at 1, lift at 1.
  destruct (getitem (PDict out) "result") as [|result]; [simpl; by rewrite Hattrs|].
  unfold bind at 1, lift at 1.
  destruct (getindex result 0) as [|first]; [simpl; by rewrite Hattrs|].
  unfold bind at 1, lift at 1.
  destruct (getitem first "output") as [|output]; [simpl; by rewrite Hattrs|].
  unfold bind at 1, Eapi.getattr at 1.
  destruct (Eapi.attrs st2 !! "_device_configs") as [cache2|];
    [|simpl; by rewrite Hattrs].
  unfold bind at 1, lift at 1.
  destruct (setitem cache2 cmd _) as [|cache3]; [simpl; by rewrite Hattrs|].
  unfold bind, Eapi.setattr, ret. simpl.
  by rewrite lookup_insert_ne, Hattrs.
Qed.

(** X12. No method of the RPC adapter writes an attribute other than
    [_session_support] and [_device_configs]: [_enable] and [_url] stay as
    [__init__] set them, whatever is called and however it ends. *)
Theorem eapi_methods_keep_attributes (st : State) (k : string)
    (commands flags : list string) (output : option Format)
    (commit replace : bool) (now : Z) :
  k ≠ "_session_support" → k ≠ "_device_configs" →
  Eapi.attrs (Eapi.send_request fetch_url commands output st).2 !! k
  = Eapi.attrs st !! k
  ∧ Eapi.attrs (Eapi.run_commands fetch_url commands st).2 !! k
    = Eapi.attrs st !! k
  ∧ Eapi.attrs (Eapi.supports_sessions fetch_url st).2 !! k
    = Eapi.attrs st !! k
  ∧ Eapi.attrs (Eapi.get_config fetch_url py_str flags st).2 !! k
    = Eapi.attrs st !! k
  ∧ Eapi.attrs (Eapi.configure fetch_url commands st).2 !! k
    = Eapi.attrs st !! k
  ∧ Eapi.attrs (Eapi.load_config fetch_url commands commit replace now st).2 !! k
    = Eapi.attrs st !! k.
Proof.
  intros Hs Hd. split; [by rewrite send_request_attrs|].
  split.
  { destruct (Eapi.run_commands fetch_url commands st) as [r st'] eqn:Hrun.
    destruct (run_commands_spec _ _ _ _ _ Hrun) as [Ha _]. simpl.
    by rewrite Ha. }
  split.
  { unfold Eapi.supports_sessions, bind. unfold Eapi.getattr at 1.
    destruct (Eapi.attrs st !! "_session_support") as [s|]; [|done].
    destruct (truthy s); [done|].
    pose proof (send_request_attrs ["show configuration sessions"] (Some Text) st)
      as Hattrs.
    destruct (Eapi.send_request _ _ _ _) as [[e|response] st2]; simpl in Hattrs;
      [simpl; by rewrite Hattrs|].
    unfold Eapi.setattr, ret. simpl. by rewrite lookup_insert_ne, Hattrs. }
  split; [by apply get_config_attrs|].
  split; [|done].
  unfold Eapi.configure, bind.
  pose proof (send_request_attrs commands (Some Text) st) as Hattrs.
  destruct (Eapi.send_request _ _ _ _) as [[e|response] st2]; simpl in Hattrs;
    simpl; by rewrite Hattrs.
Qed.

(** X13. [Eapi.configure] never returns: it sends the commands it was
    given in one request, without [configure terminal] ahead of them, and
    raises when the reply has come. *)
Theorem eapi_configure_never_returns (st : State) (commands : list string) :
  (∃ e, (Eapi.configure fetch_url commands st).1 = inl e)
  ∧ ∀ enable, Eapi.attrs st !! "_enable" = Some enable →
              is_Some (Eapi.attrs st !! "_url") →
      ∃ req reply,
        Eapi.trace (Eapi.configure fetch_url commands st).2
        = Eapi.trace st ++ [(req, reply)]
        ∧ batch enable (req, reply) = commands.
Proof.
  unfold Eapi.configure, bind. split.
  - destruct (Eapi.send_request _ _ _ _) as [[e|response] st2]; simpl; eauto.
  - intros enable He [url Hu].
    rewrite (send_request_eq fetch_url _ _ _ _ _ He Hu).
    eexists _, _. split.
    + destruct (received enable _); reflexivity.
    + unfold batch, sent, request_for. simpl. by destruct (truthy enable).
Qed.

End EapiSessions.

Lemma supports_sessions_positive_cached_witness :
  ∃ st1,
    Eapi.supports_sessions echo (Eapi.__init__ switch tt) = (inr (PBool true), st1)
    ∧ Eapi.supports_sessions echo st1 = (inr (PBool true), st1)
    ∧ length (Eapi.trace st1) = 1.
Proof.
  eexists. split; [vm_compute; reflexivity|]. split; [|reflexivity].
  apply (supports_sessions_positive_cached echo (Eapi.__init__ switch tt));
    [vm_compute; reflexivity|reflexivity].
Defined.

Lemma supports_sessions_negative_asked_again_witness :
  ∃ st1 req reply,
    Eapi.supports_sessions legacy (Eapi.__init__ switch tt)
    = (inr (PBool false), st1)
    ∧ Eapi.trace (Eapi.supports_sessions legacy st1).2
      = Eapi.trace st1 ++ [(req, reply)]
    ∧ batch (PStr "enable") (req, reply) = ["show configuration sessions"].
Proof.
  destruct (supports_sessions_negative_asked_again legacy
              (Eapi.__init__ switch tt)
              (Eapi.supports_sessions legacy (Eapi.__init__ switch tt)).2
              (PBool false))
    as (enable & req & reply & He & Ht & Hb);
    [vm_compute; reflexivity|reflexivity|].
  injection He as <-.
  eexists _, req, reply. split; [vm_compute; reflexivity|]. split; [|exact Hb].
  exact Ht.
Defined.

Lemma eapi_methods_keep_attributes_witness :
  Eapi.attrs (Eapi.supports_sessions echo (Eapi.__init__ switch tt)).2 !! "_enable"
  = Some (PStr "enable").
Proof.
  destruct (eapi_methods_keep_attributes echo (λ _, "") (Eapi.__init__ switch tt)
              "_enable" [] [] None false false 0)
    as (_ & _ & H & _); [discriminate|discriminate|].
  rewrite H. reflexivity.
Defined.

Lemma eapi_configure_never_returns_witness :
  ∃ req reply,
    Eapi.trace (Eapi.configure echo ["interface Eth1"; "shutdown"]
                  (Eapi.__init__ switch tt)).2 = [(req, reply)]
    ∧ sent (req, reply) = ["enable"; "interface Eth1"; "shutdown"]
    ∧ (Eapi.configure echo ["interface Eth1"; "shutdown"]
         (Eapi.__init__ switch tt)).1 = inl (NameError "response").
Proof.
  destruct (eapi_configure_never_returns echo (Eapi.__init__ switch tt)
              ["interface Eth1"; "shutdown"]) as [_ H].
  destruct (H (PStr "enable")) as (req & reply & Ht & Hb);
    [reflexivity|by eexists|].
  exists req, reply. split; [exact Ht|]. split; [|vm_compute; reflexivity].
  vm_compute in Ht. injection Ht as <- <-. reflexivity.
Defined.

(** ** Failures and multi-line mode on the shell *)

Section CliFailures.

Context {Shell : Type}
  (exec_command : Shell → string → (Z * string * string) * Shell)
  (from_json : string → option pyval)
  (jsonify : pyval → string).

Local Abbreviation State := (Cli.State Shell).

Lemma run_loop_stops pre : ∀ cmd post responses (st : State),
  Forall (λ r, failed r = false) (transcript exec_command (Cli.shell st) pre) →
  failed (exec_command (final_shell exec_command (Cli.shell st) pre) cmd).1
  = true →
  Cli.run_loop exec_command from_json (pre ++ cmd :: post) true responses st
  = (inl (FailJson
            {[ "msg" :=
                 PStr (exec_command
                         (final_shell exec_command (Cli.shell st) pre) cmd).1.2 ]}),
     Cli.mkState (Cli._module st)
       (exec_command (final_shell exec_command (Cli.shell st) pre) cmd).2
       (Cli.connected st)).
Proof.
  induction pre as [|c pre IH]; intros cmd post responses st Hok Hfail.
  - cbn [app Cli.run_loop transcript final_shell] in *.
    unfold bind at 1, Cli.exec at 1.
    destruct (exec_command (Cli.shell st) cmd) as [[[rc out] err] sh].
    unfold failed in Hfail. simpl in Hfail. simpl. by rewrite Hfail.
  - cbn [app Cli.run_loop transcript final_shell] in *.
    apply Forall_cons_1 in Hok as [Hc Hok].
    unfold bind at 1, Cli.exec at 1.
    destruct (exec_command (Cli.shell st) c) as [[[rc out] err] sh].
    unfold failed in Hc. simpl in Hc. cbn [fst snd] in *. rewrite Hc.
    cbn [andb]. unfold bind at 1, ret at 1.
    by apply (IH cmd post _ (Cli.mkState (Cli._module st) sh (Cli.connected st))).
Qed.

(** X14. With [check_rc], [Cli.run_commands] stops at the first command
    that the shell answers with a return code other than zero: the call
    ends in [fail_json] with the error output of that command, and the
    commands after it are not sent. *)
Theorem cli_run_commands_stops_at_failure (st : State)
    (pre : list string) (cmd : string) (post : list string) :
  let sh := final_shell exec_command (Cli.shell st) pre in
  Forall (λ r, failed r = false) (transcript exec_command (Cli.shell st) pre) →
  failed (exec_command sh cmd).1 = true →
  Cli.run_commands exec_command from_json (pre ++ cmd :: post) true st
  = (inl (FailJson {[ "msg" := PStr (exec_command sh cmd).1.2 ]}),
     Cli.mkState (Cli._module st) (exec_command sh cmd).2 (Cli.connected st)).
Proof. intros sh Hok Hfail. by apply run_loop_stops. Qed.

Lemma send_loop_cons c cs multiline last (st : State) :
  Cli.send_loop Shell exec_command jsonify (c :: cs) multiline last st
  = let m := PyStr.startswith c "banner" || multiline in
    let r := exec_command (Cli.shell st)
               (if m then sendonly jsonify c else c) in
    let st' := Cli.mkState (Cli._module st) r.2 (Cli.connected st) in
    if failed r.1 then (inr (inr r.1), st')
    else Cli.send_loop Shell exec_command jsonify cs m (Some r.1.1.1) st'.
Proof.
  cbn [Cli.send_loop]. unfold sendonly, failed.
  destruct (PyStr.startswith c "banner" || multiline) eqn:Hm.
  - unfold bind, Cli.exec. cbv zeta.
    destruct (exec_command _ _) as [[[rc out] err] sh]. simpl.
    by destruct (rc =? 0)%Z.
  - apply orb_false_iff in Hm as [_ ->]. rewrite andb_false_r.
    unfold bind, Cli.exec. cbv zeta.
    destruct (exec_command _ _) as [[[rc out] err] sh]. simpl.
    by destruct (rc =? 0)%Z.
Qed.

Lemma send_loop_sent cs : ∀ multiline last (st : State),
  Forall (λ r, failed r = false)
    (transcript exec_command (Cli.shell st) (wire jsonify multiline cs)) →
  Cli.send_loop Shell exec_command jsonify cs multiline last st
  = (inr (inl (if cs is [] then last else Some 0%Z)),
     Cli.mkState (Cli._module st)
       (final_shell exec_command (Cli.shell st) (wire jsonify multiline cs))
       (Cli.connected st)).
Proof.
  induction cs as [|c cs IH]; intros multiline last st Hok.
  - simpl. by destruct st.
  - rewrite send_loop_cons. cbn [wire transcript final_shell] in *. cbv zeta.
    apply Forall_cons_1 in Hok as [Hc Hok]. rewrite Hc.
    rewrite IH by done. simpl. f_equal. f_equal. f_equal.
    unfold failed in Hc. apply negb_false_iff, Z.eqb_eq in Hc. rewrite Hc.
    by destruct cs.
Qed.

Lemma send_loop_stops pre : ∀ c post multiline last (st : State),
  let m := multiline || existsb (λ x, PyStr.startswith x "banner") pre in
  let sh := final_shell exec_command (Cli.shell st) (wire jsonify multiline pre) in
  let r := exec_command sh
             (if PyStr.startswith c "banner" || m then sendonly jsonify c else c) in
  Forall (λ r, failed r = false)
    (transcript exec_command (Cli.shell st) (wire jsonify multiline pre)) →
  failed r.1 = true →
  Cli.send_loop Shell exec_command jsonify (pre ++ c :: post) multiline last st
  = (inr (inr r.1), Cli.mkState (Cli._module st) r.2 (Cli.connected st)).
Proof.
  induction pre as [|c0 pre IH]; intros c post multiline last st; cbv zeta.
  - cbn [app wire transcript final_shell existsb]. rewrite orb_false_r.
    intros _ Hfail. rewrite send_loop_cons. cbv zeta. by rewrite Hfail.
  - cbn [app wire transcript final_shell existsb]. intros Hok Hfail.
    apply Forall_cons_1 in Hok as [Hc Hok].
    rewrite send_loop_cons. cbv zeta. rewrite Hc.
    assert (multiline
            || (PyStr.startswith c0 "banner"
                || existsb (λ x, PyStr.startswith x "banner") pre)
            = PyStr.startswith c0 "banner" || multiline
              || existsb (λ x, PyStr.startswith x "banner") pre) as Hb
      by by destruct (PyStr.startswith c0 "banner"), multiline.
    rewrite Hb in Hfail |- *.
    exact (IH c post _ _ (Cli.mkState (Cli._module st) _ (Cli.connected st))
             Hok Hfail).
Qed.

Lemma wire_plain cs :
  Forall (λ x, PyStr.startswith x "banner" = false) cs →
  wire jsonify false cs = cs.
Proof.
  induction cs as [|c cs IH]; [done|]. intros [Hc Hcs]%Forall_cons_1.
  cbn [wire]. rewrite Hc. simpl. by rewrite IH.
Qed.

Lemma wire_multiline cs : wire jsonify true cs = sendonly jsonify <$> cs.
Proof.
  induction cs as [|c cs IH]; [done|]. cbn [wire]. rewrite orb_true_r.
  by rewrite IH.
Qed.

Lemma wire_banner pre b post :
  Forall (λ x, PyStr.startswith x "banner" = false) pre →
  PyStr.startswith b "banner" = true →
  wire jsonify false (pre ++ b :: post)
  = pre ++ (sendonly jsonify <$> b :: post).
Proof.
  intros Hpre Hb. induction pre as [|c pre IH].
  - cbn [app wire]. rewrite Hb. simpl. by rewrite wire_multiline.
  - apply Forall_cons_1 in Hpre as [Hc Hpre]. cbn [app wire]. rewrite Hc.
    simpl. by rewrite IH.
Qed.

(** X15. [send_config] stops at the first command that the shell answers
    with a return code other than zero and returns the answer to that
    command as it is, without raising; the commands after it are not
    sent. *)
Theorem send_config_stops_at_failure (st : State)
    (pre : list string) (c : string) (post : list string) :
  let sh := final_shell exec_command (Cli.shell st) (wire jsonify false pre) in
  let r := exec_command sh
             (if PyStr.startswith c "banner"
                 || existsb (λ x, PyStr.startswith x "banner") pre
              then sendonly jsonify c else c) in
  Forall (λ r, failed r = false)
    (transcript exec_command (Cli.shell st) (wire jsonify false pre)) →
  failed r.1 = true →
  Cli.send_config exec_command jsonify (pre ++ c :: post) st
  = (inr r.1, Cli.mkState (Cli._module st) r.2 (Cli.connected st)).
Proof.
  intros sh r Hok Hfail. unfold Cli.send_config, bind.
  by rewrite (send_loop_stops pre c post false None st Hok Hfail).
Qed.

(** X16. When no command starts with [banner] and the shell accepts them
    all, [send_config] sends the commands as they are, in their order,
    and returns [(0, 'ok', '')] whatever the shell printed; for an empty
    list it raises [UnboundLocalError], as [rc] was never bound. *)
Theorem send_config_plain (st : State) (commands : list string) :
  Cli.send_config exec_command jsonify [] st = (inl (UnboundLocalError "rc"), st)
  ∧ (commands ≠ [] →
     Forall (λ x, PyStr.startswith x "banner" = false) commands →
     Forall (λ r, failed r = false)
       (transcript exec_command (Cli.shell st) commands) →
     Cli.send_config exec_command jsonify commands st
     = (inr (0%Z, "ok", ""),
        Cli.mkState (Cli._module st)
          (final_shell exec_command (Cli.shell st) commands) (Cli.connected st))).
Proof.
  split; [done|]. intros Hne Hplain Hok. unfold Cli.send_config, bind.
  rewrite send_loop_sent; rewrite (wire_plain _ Hplain); [|done].
  by destruct commands.
Qed.

(** X17. Multi-line mode never ends: from the first command that starts
    with [banner] on, every command, [EOF] and those after it too, is
    sent wrapped as [{command, sendonly}], while the commands before it
    are sent as they are. *)
Theorem send_config_banner_never_ends (st : State)
    (pre : list string) (b : string) (post : list string) :
  let sent := pre ++ (sendonly jsonify <$> b :: post) in
  Forall (λ x, PyStr.startswith x "banner" = false) pre →
  PyStr.startswith b "banner" = true →
  Forall (λ r, failed r = false) (transcript exec_command (Cli.shell st) sent) →
  Cli.send_config exec_command jsonify (pre ++ b :: post) st
  = (inr (0%Z, "ok", ""),
     Cli.mkState (Cli._module st)
       (final_shell exec_command (Cli.shell st) sent) (Cli.connected st)).
Proof.
  intros sent Hpre Hb Hok. unfold Cli.send_config, bind.
  rewrite send_loop_sent; rewrite (wire_banner _ _ _ Hpre Hb); [|done].
  by destruct pre.
Qed.

End CliFailures.

Lemma cli_run_commands_stops_at_failure_witness :
  Cli.run_commands fussy json_object ["show version"; "show vlan"; "show clock"]
    true (Cli.mkState switch [] true)
  = (inl (FailJson {[ "msg" := PStr "% Invalid input" ]}),
     Cli.mkState switch ["show version"; "show vlan"] true).
Proof.
  apply (cli_run_commands_stops_at_failure fussy json_object
           (Cli.mkState switch [] true) ["show version"] "show vlan"
           ["show clock"]).
  - repeat constructor.
  - reflexivity.
Defined.

Lemma send_config_stops_at_failure_witness :
  Cli.send_config fussy mark ["interface Eth1"; "show vlan"; "shutdown"]
    (Cli.mkState switch [] true)
  = (inr (1%Z, "", "% Invalid input"),
     Cli.mkState switch ["interface Eth1"; "show vlan"] true).
Proof.
  apply (send_config_stops_at_failure fussy mark (Cli.mkState switch [] true)
           ["interface Eth1"] "show vlan" ["shutdown"]).
  - repeat constructor.
  - reflexivity.
Defined.

Lemma send_config_plain_witness :
  Cli.send_config fussy mark ["interface Eth1"; "shutdown"]
    (Cli.mkState switch [] true)
  = (inr (0%Z, "ok", ""), Cli.mkState switch ["interface Eth1"; "shutdown"] true).
Proof.
  destruct (send_config_plain fussy mark (Cli.mkState switch [] true)
              ["interface Eth1"; "shutdown"]) as [_ H].
  apply H; [discriminate|repeat constructor|repeat constructor].
Defined.

Lemma send_config_banner_never_ends_witness :
  Cli.send_config fussy mark
    ["hostname sw1"; "banner login"; "Welcome"; "EOF"; "interface Eth1"]
    (Cli.mkState switch [] true)
  = (inr (0%Z, "ok", ""),
     Cli.mkState switch
       ["hostname sw1"; "{sendonly: banner login}"; "{sendonly: Welcome}";
        "{sendonly: EOF}"; "{sendonly: interface Eth1}"] true).
Proof.
  apply (send_config_banner_never_ends fussy mark (Cli.mkState switch [] true)
           ["hostname sw1"] "banner login" ["Welcome"; "EOF"; "interface Eth1"]).
  - repeat constructor.
  - reflexivity.
  - repeat constructor.
Defined.

(** ** Shape of the requests of the batcher *)

Section EapiBatches.

Context {Device : Type} (fetch_url : Device → Request → Reply * Device).

Local Abbreviation State := (Eapi.State Device).

(** X18. A non-empty sequence of commands of one format costs one round
    trip: a call of [run_commands] that returns has sent one request, with
    all the commands in their order, tagged with their format. *)
Theorem run_commands_uniform_one_request (st st' : State)
    (commands : list string) (b : bool) (rs : list pyval) (enable : pyval) :
  commands ≠ [] →
  Forall (λ c, is_json c = b) commands →
  Eapi.run_commands fetch_url commands st = (inr rs, st') →
  Eapi.attrs st !! "_enable" = Some enable →
  ∃ req reply,
    Eapi.trace st' = Eapi.trace st ++ [(req, reply)]
    ∧ batch enable (req, reply) = commands
    ∧ format (params (req_data req)) = Some (if b then Json else Text).
Proof.
  intros Hne Hall Hrun He.
  destruct (run_commands_spec _ _ _ _ _ Hrun) as (_ & new & Ht & _ & _ & Hlen).
  specialize (Hlen rs eq_refl).
  rewrite (uniform_format_one_request b commands Hne Hall) in Hlen.
  unfold Eapi.run_commands, bind in Hrun.
  destruct (Eapi.collect _ _ _) as [[e|responses] st1] eqn:Hc; [done|].
  unfold lift in Hrun. injection Hrun as _ <-.
  destruct (collect_order _ _ _ _ _ _ Hc He) as (new' & Ht' & Hcat & _ & Htag).
  assert (new' = new) as -> by (rewrite Ht in Ht'; by apply (inj (app _)) in Ht').
  destruct new as [|[req reply] [|??]]; try done.
  simpl in Hcat. rewrite (right_id_L [] (++)) in Hcat.
  exists req, reply. split; [done|]. split; [done|].
  apply Forall_cons_1 in Htag as [Htag _].
  destruct commands as [|c commands]; [done|].
  apply Forall_cons_1 in Hall as [Hc' _].
  specialize (Htag c). simpl in Htag.
  rewrite Htag by (rewrite Hcat; apply list_elem_of_here).
  unfold format_of. by rewrite Hc'.
Qed.

(** [_send] makes at most one request, which carries the commands it was
    given, and none when it returns nothing was asked. *)
Lemma _send_segment commands output (st : State) r st' enable :
  Eapi._send fetch_url commands output st = (r, st') →
  Eapi.attrs st !! "_enable" = Some enable →
  Eapi.attrs st' = Eapi.attrs st
  ∧ ∃ new, Eapi.trace st' = Eapi.trace st ++ new
      ∧ ((new = [] ∧ ∃ e, r = inl e)
         ∨ ∃ entry, new = [entry] ∧ batch enable entry = commands).
Proof.
  intros Hs He.
  destruct (_send_cases fetch_url commands output st)
    as [[e He']|(enable' & url & He' & Hu & Hs')].
  - rewrite He' in Hs. injection Hs as <- <-. split; [done|]. exists [].
    rewrite (right_id_L [] (++)). split; [done|]. left. eauto.
  - assert (enable' = enable) as -> by congruence.
    simpl in Hs'. rewrite Hs' in Hs. injection Hs as <- <-.
    split; [done|]. eexists. split; [reflexivity|].
    right. eexists. split; [reflexivity|].
    unfold batch, sent, request_for. simpl. by destruct (truthy enable).
Qed.

(** The first loop, whether it ends or fails: the batches it has sent,
    one after the other, are the leading commands of the queue and the
    items, none of them is empty, and what it hands on is the rest. *)
Lemma batch_loop_segments items :
  ∀ output queue responses (st : State) r st' enable,
  Eapi.batch_loop fetch_url items output queue responses st = (r, st') →
  Eapi.attrs st !! "_enable" = Some enable →
  (output = None ∨ queue ≠ []) →
  Eapi.attrs st' = Eapi.attrs st
  ∧ ∃ new rest, Eapi.trace st' = Eapi.trace st ++ new
      ∧ Forall (λ entry, batch enable entry ≠ []) new
      ∧ queue ++ items = concat (batch enable <$> new) ++ rest
      ∧ ∀ o q rs, r = inr (o, q, rs) → rest = q ∧ (o = None ∨ q ≠ []).
Proof.
  induction items as [|item items IH];
    intros output queue responses st r st' enable.
  - intros [= <- <-] He Hq. split; [done|]. exists [], queue.
    rewrite !(right_id_L [] (++)). split; [done|]. split; [done|].
    split; [done|]. by intros o q rs [= <- <- <-].
  - cbn [Eapi.batch_loop]. unfold bind at 1.
    assert (∀ q : list string, q ++ [item] ≠ []) as Hsnoc by by intros [|??].
    destruct (Eapi.format_change output item) eqn:Hfc.
    + destruct (format_change_true _ _ Hfc) as [f ->].
      unfold bind at 1.
      destruct (Eapi._send fetch_url queue (Some f) st) as [[e|v] st1] eqn:Hsend;
        intros Hloop He [?|Hq]; try done;
        destruct (_send_segment _ _ _ _ _ _ Hsend He)
          as (Ha1 & new1 & Ht1 & [[-> Hex]|(entry & -> & Hb1)]).
      * injection Hloop as <- <-. split; [done|].
        exists [], (queue ++ item :: items). split; [done|].
        split; [done|]. split; [done|]. intros ??? [=].
      * injection Hloop as <- <-. split; [done|].
        exists [entry], (item :: items). split; [done|].
        split; [constructor; [congruence|done]|].
        split; [simpl; by rewrite Hb1, (right_id_L [] (++))|]. intros ??? [=].
      * by destruct Hex as [e [=]].
      * unfold bind at 1, lift at 1 in Hloop.
        destruct (extend responses v) as [e|responses'].
        { injection Hloop as <- <-. split; [done|].
          exists [entry], (item :: items). split; [done|].
          split; [constructor; [congruence|done]|].
          split; [simpl; by rewrite Hb1, (right_id_L [] (++))|]. intros ??? [=]. }
        unfold ret at 1 in Hloop. rewrite <- Ha1 in He.
        destruct (IH _ _ _ _ _ _ _ Hloop He)
          as (Ha2 & new2 & rest & Ht2 & Hb2 & Hcat & Hq2);
          [right; apply Hsnoc|].
        split; [congruence|]. exists (entry :: new2), rest.
        split; [by rewrite Ht2, Ht1, <- (assoc_L (++))|].
        split; [constructor; [congruence|done]|]. split; [|done].
        rewrite fmap_cons. cbn [concat].
        rewrite Hb1, <- (assoc_L (++)). f_equal. exact Hcat.
    + unfold ret at 1. intros Hloop He _.
      destruct (IH _ _ _ _ _ _ _ Hloop He)
        as (Ha2 & new2 & rest & Ht2 & Hb2 & Hcat & Hq2); [right; apply Hsnoc|].
      split; [done|]. exists new2, rest. split; [done|]. split; [done|].
      split; [|done]. by rewrite <- Hcat, <- (assoc_L (++)).
Qed.

(** X19. Whether a call of [run_commands] returns or fails, the batches
    of the requests it has made, one after the other, are the leading
    commands of the sequence it was given, in their order, and none of
    them is empty: no request is sent without a command, and no request
    carries a command that was not given or that an earlier request has
    carried. *)
Theorem run_commands_no_empty_batch (st : State) (commands : list string)
    (enable : pyval) :
  Eapi.attrs st !! "_enable" = Some enable →
  let st' := (Eapi.run_commands fetch_url commands st).2 in
  let new := drop (length (Eapi.trace st)) (Eapi.trace st') in
  Eapi.trace st' = Eapi.trace st ++ new
  ∧ Forall (λ entry, batch enable entry ≠ []) new
  ∧ ∃ rest, commands = concat (batch enable <$> new) ++ rest.
Proof.
  intros He.
  assert (∃ new rest,
            Eapi.trace (Eapi.run_commands fetch_url commands st).2
            = Eapi.trace st ++ new
            ∧ Forall (λ entry, batch enable entry ≠ []) new
            ∧ commands = concat (batch enable <$> new) ++ rest)
    as (new & rest & Ht & Hb & Hcat).
  { unfold Eapi.run_commands, Eapi.collect. unfold bind at 1 2.
    destruct (Eapi.batch_loop _ _ _ _ _ _) as [[e|[[o q] rs]] st1] eqn:Hloop;
      destruct (batch_loop_segments _ _ _ _ _ _ _ _ Hloop He)
        as (Ha1 & new1 & rest1 & Ht1 & Hb1 & Hcat1 & Hq1);
      [by left|idtac|by left|idtac].
    { simpl. by exists new1, rest1. }
    destruct (Hq1 _ _ _ eq_refl) as [-> _]. simpl in Hcat1.
    destruct q as [|c q].
    { unfold ret, lift. simpl. by exists new1, []. }
    unfold bind at 1. rewrite <- Ha1 in He.
    destruct (Eapi._send _ _ _ _) as [[e|v] st2] eqn:Hsend;
      destruct (_send_segment _ _ _ _ _ _ Hsend He)
        as (Ha2 & new2 & Ht2 & [[-> Hex]|(entry & -> & Hb2)]).
    - simpl. exists new1, (c :: q). by rewrite Ht2, (right_id_L [] (++)).
    - simpl. exists (new1 ++ [entry]), [].
      split; [by rewrite Ht2, Ht1, (assoc_L (++))|].
      split; [apply Forall_app; split; [done|]; constructor; [congruence|done]|].
      rewrite fmap_app, concat_app. simpl.
      by rewrite Hb2, !(right_id_L [] (++)).
    - by destruct Hex as [e [=]].
    - exists (new1 ++ [entry]), [].
      split; [unfold lift; destruct (extend rs v); simpl;
              by rewrite Ht2, Ht1, (assoc_L (++))|].
      split; [apply Forall_app; split; [done|]; constructor; [congruence|done]|].
      rewrite fmap_app, concat_app. simpl.
      by rewrite Hb2, !(right_id_L [] (++)). }
  simpl. rewrite Ht, drop_app_length. split; [done|]. split; [done|].
  by exists rest.
Qed.

End EapiBatches.

Lemma run_commands_uniform_one_request_witness :
  ∃ req reply,
    Eapi.trace (Eapi.run_commands echo ["show version"; "show clock"]
                  (Eapi.__init__ switch tt)).2 = [(req, reply)]
    ∧ sent (req, reply) = ["enable"; "show version"; "show clock"]
    ∧ format (params (req_data req)) = Some Text.
Proof.
  destruct (run_commands_uniform_one_request echo (Eapi.__init__ switch tt)
              (Eapi.run_commands echo ["show version"; "show clock"]
                 (Eapi.__init__ switch tt)).2
              ["show version"; "show clock"] false
              [PStr "show version"; PStr "show clock"] (PStr "enable"))
    as (req & reply & Ht & Hb & Hf);
    [discriminate|repeat constructor|vm_compute; reflexivity|reflexivity|].
  exists req, reply. split; [exact Ht|]. split; [|exact Hf].
  vm_compute in Ht. injection Ht as <- <-. reflexivity.
Defined.

Lemma run_commands_no_empty_batch_witness :
  let run := Eapi.run_commands text_only example_commands
               (Eapi.__init__ switch tt) in
  (∃ e, run.1 = inl e)
  ∧ batch (PStr "enable") <$> Eapi.trace run.2
    = [["show version"]; ["show interfaces | json"]]
  ∧ ∃ rest, example_commands
            = ["show version"; "show interfaces | json"] ++ rest.
Proof.
  intros run.
  destruct (run_commands_no_empty_batch text_only (Eapi.__init__ switch tt)
              example_commands (PStr "enable") eq_refl)
    as (_ & _ & rest & Hrest).
  split; [eexists; vm_compute; reflexivity|].
  split; [vm_compute; reflexivity|].
  exists rest. vm_compute in Hrest. exact Hrest.
Defined.
